(** * Collaborative code editor: the document model, the room registry and
      the connection hub

    A shallow embedding of [backend/crdt.py], [backend/room_manager.py],
    [backend/websocket_manager.py] and of the two places of
    [backend/main.py] that call them, with the properties the design
    document states about them.

    Python objects are modelled by records whose fields carry the types the
    dataclasses annotate: [int] is [Z], [str] is [string], a [dict] is a
    [gmap], a [set] a [gset].  Clock readings ([time.time()]) are a
    parameter of the functions that read the clock and are idealised as
    integers (seconds).  Mutation of [self] is state passing: a method
    returns its result together with the new object. *)

From Stdlib Require Import ZArith Lia String Ascii List Bool.
From stdpp Require Import gmap strings list fin_maps sorting.

Local Open Scope string_scope.
Local Open Scope Z_scope.

(** ** Python string primitives *)

Module PyStr.

(** [len(s)] *)
Definition len (s : string) : Z := Z.of_nat (String.length s).

Fixpoint take (n : nat) (s : string) : string :=
  match n, s with
  | S n', String c s' => String c (take n' s')
  | _, _ => EmptyString
  end.

Fixpoint drop (n : nat) (s : string) : string :=
  match n, s with
  | S n', String _ s' => drop n' s'
  | _, _ => s
  end.

(** A slice bound as Python normalises it: a negative bound counts from
    the end, and the result is clamped into [0, len(s)]. *)
Definition bound (s : string) (i : Z) : nat :=
  Z.to_nat (if i <? 0 then Z.max 0 (i + len s) else Z.min i (len s)).

(** [s[:i]] *)
Definition slice_to (s : string) (i : Z) : string := take (bound s i) s.

(** [s[i:]] *)
Definition slice_from (s : string) (i : Z) : string := drop (bound s i) s.

End PyStr.

(** ** backend/crdt.py *)

Module Crdt.

Import PyStr.

(** [@dataclass class Operation] *)
Record Operation := mkOperation {
  op_type   : string;   (* 'insert' or 'delete' *)
  position  : Z;
  content   : string;
  client_id : string;
  timestamp : Z;
  version   : Z
}.

(** The JSON object of an operation message, as [Operation.from_dict]
    reads it: each of the six keys is absent or holds a value of the type
    the dataclass annotates.  Other keys are never read. *)
Record OperationDict := mkOperationDict {
  d_type      : option string;
  d_position  : option Z;
  d_content   : option string;
  d_clientId  : option string;
  d_timestamp : option Z;
  d_version   : option Z
}.

(** The dictionary [{}]. *)
Definition empty_dict : OperationDict :=
  mkOperationDict None None None None None None.

(** [data.get(key, dflt)], on the entry of [key]. *)
Definition get {A} (entry : option A) (dflt : A) : A :=
  match entry with Some v => v | None => dflt end.

(** [Operation.from_dict]; [now] is the reading of [time.time()]. *)
Definition from_dict (now : Z) (data : OperationDict) : Operation :=
  {| op_type   := get (d_type data) "insert";
     position  := get (d_position data) 0;
     content   := get (d_content data) "";
     client_id := get (d_clientId data) "";
     timestamp := get (d_timestamp data) now;
     version   := get (d_version data) 0 |}.

(** [class CRDT] *)
Record CRDT := mkCRDT {
  document_id     : string;
  text            : string;            (* self.content *)
  operations      : list Operation;
  doc_version     : Z;                 (* self.version *)
  client_versions : gmap string Z
}.

(** [CRDT.__init__] *)
Definition init (document_id : string) : CRDT :=
  {| document_id := document_id; text := ""; operations := [];
     doc_version := 0; client_versions := ∅ |}.

(** The body of the [for concurrent_op in concurrent_ops] loop of
    [_transform_operation]: the new value of [transformed_position]. *)
Definition shift (transformed_position : Z) (concurrent_op : Operation) : Z :=
  if String.eqb (op_type concurrent_op) "insert" then
    if position concurrent_op <=? transformed_position
    then transformed_position + len (content concurrent_op)
    else transformed_position
  else if String.eqb (op_type concurrent_op) "delete" then
    if position concurrent_op <? transformed_position
    then transformed_position
         - Z.min (len (content concurrent_op))
                 (transformed_position - position concurrent_op)
    else transformed_position
  else transformed_position.

(** [CRDT._transform_operation] *)
Definition _transform_operation (self : CRDT) (operation : Operation) : Operation :=
  let client_version :=
    default 0 (client_versions self !! client_id operation) in
  let concurrent_ops :=
    List.filter (fun op => client_version <? version op) (operations self) in
  let transformed_position :=
    fold_left shift concurrent_ops (position operation) in
  {| op_type   := op_type operation;
     position  := Z.max 0 transformed_position;
     content   := content operation;
     client_id := client_id operation;
     timestamp := timestamp operation;
     version   := 0 |}.

(** Lines 73-84 of [apply_operation]: the new [self.content]. *)
Definition edit (content_ : string) (transformed_op : Operation) : string :=
  if String.eqb (op_type transformed_op) "insert" then
    let pos := Z.min (position transformed_op) (len content_) in
    slice_to content_ pos +:+ content transformed_op +:+ slice_from content_ pos
  else if String.eqb (op_type transformed_op) "delete" then
    let start := Z.min (position transformed_op) (len content_) in
    let length := len (content transformed_op) in
    let end_ := Z.min (start + length) (len content_) in
    slice_to content_ start +:+ slice_from content_ end_
  else content_.

(** [transformed_op.version = self.version] *)
Definition stamp (v : Z) (op : Operation) : Operation :=
  {| op_type := op_type op; position := position op; content := content op;
     client_id := client_id op; timestamp := timestamp op; version := v |}.

(** [CRDT.apply_operation].  With fields of the annotated types none of
    the primitives in the [try] block raises, so the [except] branch is
    never taken and the result is [True]. *)
Definition apply_operation (self : CRDT) (operation : Operation) : bool * CRDT :=
  let transformed_op := _transform_operation self operation in
  let content' := edit (text self) transformed_op in
  let version' := doc_version self + 1 in
  (true,
   {| document_id := document_id self;
      text := content';
      operations := operations self ++ [stamp version' transformed_op];
      doc_version := version';
      client_versions :=
        <[client_id operation := version']> (client_versions self) |}).

(** [CRDT.get_operations_since] *)
Definition get_operations_since (self : CRDT) (v : Z) : list Operation :=
  List.filter (fun op => v <? version op) (operations self).

(** [CRDT.set_content] *)
Definition set_content (self : CRDT) (content_ : string) : CRDT :=
  {| document_id := document_id self;
     text := content_;
     operations := operations self;
     doc_version := doc_version self + 1;
     client_versions := client_versions self |}.

(** [Operation.to_dict]: all six keys are present. *)
Definition to_dict (self : Operation) : OperationDict :=
  {| d_type      := Some (op_type self);
     d_position  := Some (position self);
     d_content   := Some (content self);
     d_clientId  := Some (client_id self);
     d_timestamp := Some (timestamp self);
     d_version   := Some (version self) |}.

(** The dictionary [CRDT.get_state] returns. *)
Record DocumentState := mkDocumentState {
  s_documentId : string;
  s_content    : string;
  s_version    : Z
}.

(** [CRDT.get_state] *)
Definition get_state (self : CRDT) : DocumentState :=
  {| s_documentId := document_id self;
     s_content := text self;
     s_version := doc_version self |}.

End Crdt.

(** ** backend/room_manager.py *)

Module Rooms.

(** [@dataclass class User] *)
Record User := mkUser {
  user_id         : string;
  username        : string;
  color           : string;
  cursor_position : Z;
  selection_start : option Z;
  selection_end   : option Z;
  last_active     : Z
}.

(** [@dataclass class Room] *)
Record Room := mkRoom {
  room_id    : string;
  created_at : Z;
  users      : gmap string User;
  crdt       : Crdt.CRDT;
  language   : string
}.

(** [Room(room_id=..., language=...)] with [__post_init__]; [now] is the
    reading of [time.time()] that fills [created_at]. *)
Definition new_room (now : Z) (room_id : string) (language : string) : Room :=
  {| room_id := room_id; created_at := now; users := ∅;
     crdt := Crdt.init room_id; language := language |}.

(** [Room.add_user] *)
Definition add_user (self : Room) (user : User) : Room :=
  {| room_id := room_id self; created_at := created_at self;
     users := <[user_id user := user]> (users self);
     crdt := crdt self; language := language self |}.

(** [Room.remove_user] *)
Definition remove_user (self : Room) (uid : string) : option User * Room :=
  (users self !! uid,
   {| room_id := room_id self; created_at := created_at self;
      users := delete uid (users self);
      crdt := crdt self; language := language self |}).

(** [Room.get_active_users]; [current_time] is the reading of
    [time.time()]. *)
Definition get_active_users (current_time : Z) (self : Room) : list User :=
  List.filter (fun user => current_time - last_active user <? 300)
              (snd <$> map_to_list (users self)).

(** [class RoomManager] *)
Record RoomManager := mkRoomManager {
  rooms : gmap string Room
}.

(** [RoomManager.create_room]; [room_id] is what [_generate_room_id]
    returned, an identifier not yet in [rooms]. *)
Definition create_room (now : Z) (room_id : string) (language : string)
    (self : RoomManager) : Room * RoomManager :=
  let room := new_room now room_id language in
  (room, {| rooms := <[room_id := room]> (rooms self) |}).

(** [RoomManager.get_room] *)
Definition get_room (self : RoomManager) (rid : string) : option Room :=
  rooms self !! rid.

(** [RoomManager.delete_room] *)
Definition delete_room (self : RoomManager) (rid : string) : bool * RoomManager :=
  match rooms self !! rid with
  | Some _ => (true, {| rooms := delete rid (rooms self) |})
  | None => (false, self)
  end.

(** [RoomManager.room_exists] *)
Definition room_exists (self : RoomManager) (rid : string) : bool :=
  bool_decide (is_Some (rooms self !! rid)).

(** [RoomManager.cleanup_inactive_rooms].  The clock is taken not to
    advance between the reading of [current_time] and the readings inside
    [get_active_users]. *)
Definition cleanup_inactive_rooms (current_time : Z) (max_age_hours : Z)
    (self : RoomManager) : nat * RoomManager :=
  let max_age_seconds := max_age_hours * 3600 in
  let inactive_rooms :=
    fst <$> List.filter
      (fun '(_, room) =>
         (max_age_seconds <? current_time - created_at room)
         && Nat.eqb (length (get_active_users current_time room)) 0)
      (map_to_list (rooms self)) in
  (length inactive_rooms,
   {| rooms := fold_left (fun m rid => delete rid m) inactive_rooms (rooms self) |}).

(** [Room.get_user] *)
Definition get_user (self : Room) (uid : string) : option User :=
  users self !! uid.

(** [Room.update_user_cursor]; [now] is the reading of [time.time()].  The
    [User] object stored under [uid] is updated in place. *)
Definition update_user_cursor (now : Z) (self : Room) (uid : string)
    (position : Z) (selection_start_ selection_end_ : option Z)
    : bool * Room :=
  match users self !! uid with
  | Some user =>
      let user' :=
        {| user_id := user_id user; username := username user;
           color := color user; cursor_position := position;
           selection_start := selection_start_;
           selection_end := selection_end_; last_active := now |} in
      (true,
       {| room_id := room_id self; created_at := created_at self;
          users := <[uid := user']> (users self);
          crdt := crdt self; language := language self |})
  | None => (false, self)
  end.

(** An entry of the list [RoomManager.get_all_rooms] returns. *)
Record RoomInfo := mkRoomInfo {
  i_roomId          : string;
  i_userCount       : nat;
  i_activeUserCount : nat;
  i_createdAt       : Z;
  i_language        : string
}.

(** [RoomManager.get_all_rooms]; [now] is the reading of [time.time()]
    inside [get_active_users], taken not to advance during the call. *)
Definition get_all_rooms (now : Z) (self : RoomManager) : list RoomInfo :=
  (fun room =>
     {| i_roomId := room_id room;
        i_userCount := size (users room);
        i_activeUserCount := length (get_active_users now room);
        i_createdAt := created_at room;
        i_language := language room |})
  <$> (snd <$> map_to_list (rooms self)).

End Rooms.

(** ** backend/websocket_manager.py *)

Module Hub.

(** A [WebSocket] object, known by its identity. *)
Definition conn := nat.

(** A JSON message: [dict] from keys to printed values. *)
Abbreviation message := (gmap string string).

(** [class ConnectionManager] *)
Record ConnectionManager := mkConnectionManager {
  active_connections : gmap string (gset conn);
  connection_users   : gmap conn string;
  connection_rooms   : gmap conn string
}.

(** [ConnectionManager.__init__] *)
Definition empty : ConnectionManager :=
  {| active_connections := ∅; connection_users := ∅; connection_rooms := ∅ |}.

(** Truth value of a [str]: the empty string is false. *)
Definition truthy (s : string) : bool := negb (String.eqb s "").

(** [ConnectionManager.connect], for a socket that [accept()] accepts: the
    first [connect] of a socket.  On a socket already accepted [accept()]
    raises before anything is registered; that case is not modelled. *)
Definition connect (self : ConnectionManager) (websocket : conn)
    (room_id user_id : string) : ConnectionManager :=
  let conns := default ∅ (active_connections self !! room_id) in
  {| active_connections :=
       <[room_id := conns ∪ {[websocket]}]> (active_connections self);
     connection_users := <[websocket := user_id]> (connection_users self);
     connection_rooms := <[websocket := room_id]> (connection_rooms self) |}.

(** [ConnectionManager.disconnect] *)
Definition disconnect (self : ConnectionManager) (websocket : conn)
    : option (string * string) * ConnectionManager :=
  let room_id := connection_rooms self !! websocket in
  let user_id := connection_users self !! websocket in
  let active' :=
    match room_id with
    | Some r =>
        if truthy r then
          match active_connections self !! r with
          | Some conns =>
              let conns' := conns ∖ {[websocket]} in
              if bool_decide (conns' = ∅)
              then delete r (active_connections self)
              else <[r := conns']> (active_connections self)
          | None => active_connections self
          end
        else active_connections self
    | None => active_connections self
    end in
  let self' :=
    {| active_connections := active';
       connection_users := delete websocket (connection_users self);
       connection_rooms := delete websocket (connection_rooms self) |} in
  match room_id, user_id with
  | Some r, Some u => if truthy r && truthy u then (Some (r, u), self')
                      else (None, self')
  | _, _ => (None, self')
  end.

(** [ConnectionManager.get_room_connection_count] *)
Definition get_room_connection_count (self : ConnectionManager)
    (room_id : string) : nat :=
  size (default ∅ (active_connections self !! room_id)).

(** The first loop of [broadcast_to_room]: the calls of [send_json] it
    makes, in order, and the list [disconnected].  [send_fails c] tells
    whether [send_json] raises on connection [c]. *)
Fixpoint send_loop (send_fails : conn → bool) (message_ : message)
    (exclude : option conn) (connections : list conn)
    : list (conn * message) * list conn :=
  match connections with
  | [] => ([], [])
  | connection :: rest =>
      let '(sent, disconnected) := send_loop send_fails message_ exclude rest in
      if bool_decide (Some connection = exclude) then (sent, disconnected)
      else if send_fails connection
           then ((connection, message_) :: sent, connection :: disconnected)
           else ((connection, message_) :: sent, disconnected)
  end.

(** [ConnectionManager.broadcast_to_room]: the calls of [send_json] made
    and the manager afterwards.  [now] is the printed reading of
    [datetime.utcnow()]; the elements of the room's set are visited in
    the order [elements] lists them. *)
Definition broadcast_to_room (send_fails : conn → bool) (now : string)
    (self : ConnectionManager) (message_ : message) (room_id : string)
    (exclude : option conn)
    : list (conn * message) * ConnectionManager :=
  match active_connections self !! room_id with
  | None => ([], self)
  | Some conns =>
      let message' := <["timestamp" := now]> message_ in
      let '(sent, disconnected) :=
        send_loop send_fails message' exclude (elements conns) in
      (sent, fold_left (fun h c => snd (disconnect h c)) disconnected self)
  end.

(** [ConnectionManager.get_user_id] *)
Definition get_user_id (self : ConnectionManager) (websocket : conn)
    : option string :=
  connection_users self !! websocket.

(** [ConnectionManager.get_room_id] *)
Definition get_room_id (self : ConnectionManager) (websocket : conn)
    : option string :=
  connection_rooms self !! websocket.

End Hub.

(** ** backend/main.py *)

Module Main.

(** What the [DELETE /api/rooms/{room_id}] handler answers. *)
Inductive response :=
| HTTPException (status_code : Z) (detail : string)
| Deleted (room_id : string).

(** [delete_room], the handler of [DELETE /api/rooms/{room_id}]. *)
Definition delete_room (mgr : Rooms.RoomManager) (room_id : string)
    : response * Rooms.RoomManager :=
  let '(success, mgr') := Rooms.delete_room mgr room_id in
  if negb success then (HTTPException 404 "Room not found", mgr')
  else (Deleted room_id, mgr').

(** Lines 251-255 of [handle_websocket_message]: an ['operation'] message
    is parsed, attributed to the sender and applied.  [operation] is the
    entry of the message under ['operation'], if any; when present it is
    taken to be a dictionary whose entries have the annotated types.  For
    other JSON values (an entry that is no dictionary, a position that is
    no integer) the Python code raises or returns [False]; these are not
    modelled. *)
Definition handle_operation (now : Z) (user_id : string)
    (operation : option Crdt.OperationDict) (crdt : Crdt.CRDT)
    : bool * Crdt.CRDT :=
  let parsed := Crdt.from_dict now (Crdt.get operation Crdt.empty_dict) in
  let parsed :=
    {| Crdt.op_type := Crdt.op_type parsed;
       Crdt.position := Crdt.position parsed;
       Crdt.content := Crdt.content parsed;
       Crdt.client_id := user_id;
       Crdt.timestamp := Crdt.timestamp parsed;
       Crdt.version := Crdt.version parsed |} in
  Crdt.apply_operation crdt parsed.

End Main.

(** ** The design document's vocabulary

    Definitions that follow the words of the design document rather than
    the code; the theorems below compare them with the code. *)

Module Design.

Import PyStr Crdt.

(** The position adjustment of [transform], as the design document words
    it: one pass over the log, in log order; an entry the submitter already
    knows ([version <= lastKnown]) is skipped; an unseen Insert at or before
    the adjusted position adds the length of its payload; an unseen Delete
    strictly before it subtracts [min(length(payload), adjusted - position)]. *)
Fixpoint adjust (lastKnown : Z) (log : list Operation) (adjusted : Z) : Z :=
  match log with
  | [] => adjusted
  | concurrent :: log' =>
      if decide (version concurrent ≤ lastKnown) then
        adjust lastKnown log' adjusted
      else if decide (op_type concurrent = "insert"
                      ∧ position concurrent ≤ adjusted) then
        adjust lastKnown log' (adjusted + len (content concurrent))
      else if decide (op_type concurrent = "delete"
                      ∧ position concurrent < adjusted) then
        adjust lastKnown log'
          (adjusted - Z.min (len (content concurrent))
                            (adjusted - position concurrent))
      else adjust lastKnown log' adjusted
  end.

(** A malformed operation: negative position or unknown kind. *)
Definition malformed (op : Operation) : Prop :=
  position op < 0 ∨ (op_type op ≠ "insert" ∧ op_type op ≠ "delete").

(** A valid Insert/Delete operation. *)
Definition valid (op : Operation) : Prop :=
  (op_type op = "insert" ∨ op_type op = "delete") ∧ 0 ≤ position op.

(** The calls that change a replica. *)
Inductive call :=
| ApplyOperation (op : Operation)
| SetContent (content_ : string).

Definition step (self : CRDT) (c : call) : CRDT :=
  match c with
  | ApplyOperation op => snd (apply_operation self op)
  | SetContent s => set_content self s
  end.

(** The replica after a sequence of calls. *)
Definition exec (calls : list call) (self : CRDT) : CRDT :=
  fold_left step calls self.

(** The replica after a sequence of [apply_operation] calls. *)
Definition apply_all (ops : list Operation) (self : CRDT) : CRDT :=
  fold_left (fun st op => snd (apply_operation st op)) ops self.

(** Number of [set_content] calls in a sequence. *)
Fixpoint set_content_calls (calls : list call) : Z :=
  match calls with
  | [] => 0
  | SetContent _ :: calls' => 1 + set_content_calls calls'
  | ApplyOperation _ :: calls' => set_content_calls calls'
  end.

(** Replaying a log, in order, from the empty string: each logged
    operation edits the text at the position the log records. *)
Definition replay (log : list Operation) : string :=
  fold_left edit log "".

(** "[version == length(log)]; [text] is fully determined by replaying
    [log] from empty in order". *)
Definition replica_invariant (self : CRDT) : Prop :=
  doc_version self = Z.of_nat (length (operations self))
  ∧ text self = replay (operations self).

(** Sum of the insert payload lengths of a sequence of operations. *)
Fixpoint inserted (ops : list Operation) : Z :=
  match ops with
  | [] => 0
  | op :: ops' =>
      (if decide (op_type op = "insert") then len (content op) else 0)
      + inserted ops'
  end.

(** The clamped delete length of [op] on replica [self]: with [start] the
    transformed position clamped into the text,
    [min(length(payload), length(text) - start)]. *)
Definition clamped_delete_length (self : CRDT) (op : Operation) : Z :=
  let start := Z.min (position (_transform_operation self op)) (len (text self)) in
  Z.min (len (content op)) (len (text self) - start).

(** Sum of the clamped delete lengths over a sequence of operations applied
    from [self] on. *)
Fixpoint removed (self : CRDT) (ops : list Operation) : Z :=
  match ops with
  | [] => 0
  | op :: ops' =>
      (if decide (op_type op = "delete")
       then clamped_delete_length self op else 0)
      + removed (snd (apply_operation self op)) ops'
  end.

(** The connections of a room; none when the room is not registered. *)
Definition room_connections (self : Hub.ConnectionManager) (room_id : string)
    : gset Hub.conn :=
  default ∅ (Hub.active_connections self !! room_id).

(** Every set under [active_connections] holds only connections that
    [connection_rooms] maps back to that room. *)
Definition consistent (self : Hub.ConnectionManager) : Prop :=
  ∀ room_id c, c ∈ room_connections self room_id →
               Hub.connection_rooms self !! c = Some room_id.

(** An operation with its position clamped to [>= 0] and the version
    field of a fresh [Operation]: what [_transform_operation] returns when
    no logged operation is concurrent. *)
Definition clamped (op : Operation) : Operation :=
  {| op_type := op_type op; position := Z.max 0 (position op);
     content := content op; client_id := client_id op;
     timestamp := timestamp op; version := 0 |}.

(** A connection manager as [connect] and [disconnect] keep it: every set
    under [active_connections] is non-empty and holds only connections that
    [connection_rooms] maps back to its room. *)
Definition well_formed (self : Hub.ConnectionManager) : Prop :=
  consistent self
  ∧ ∀ room_id conns, Hub.active_connections self !! room_id = Some conns →
                     conns ≠ ∅.

(** What every replica built from [CRDT.__init__] keeps true of its
    version stamps: logged versions lie in [1, version] and increase along
    the log, and a client's recorded version is the stamp of one of its
    logged operations. *)
Definition stamps_in_order (self : CRDT) : Prop :=
  0 ≤ doc_version self
  ∧ Forall (fun op => 1 ≤ version op ≤ doc_version self) (operations self)
  ∧ StronglySorted Z.lt (version <$> operations self)
  ∧ ∀ c v, client_versions self !! c = Some v →
           ∃ op, op ∈ operations self ∧ client_id op = c ∧ version op = v.


End Design.

(** ** Concrete replicas, rooms and managers

    The inputs of the examples below. *)

Module Scenarios.

Import Crdt Design.

Definition insert_op (client payload : string) (pos : Z) : Operation :=
  mkOperation "insert" pos payload client 0 0.

Definition delete_op (client payload : string) (pos : Z) : Operation :=
  mkOperation "delete" pos payload client 0 0.

(** "Hello" at version 1, produced by client1's insert. *)
Definition hello_v1 : CRDT :=
  apply_all [insert_op "client1" "Hello" 0] (init "doc").

(** ... after client1's insert(" World", position=5). *)
Definition hello_world : CRDT :=
  apply_all [insert_op "client1" " World" 5] hello_v1.

(** client2's insert("!", position=5). *)
Definition bang : Operation := insert_op "client2" "!" 5.

(** A replica whose text was assigned directly ([crdt.content = ...], as
    the repository's tests do): version 0, empty log. *)
Definition seeded (content_ : string) : CRDT :=
  mkCRDT "doc" content_ [] 0 ∅.

(** An insert at a negative position and an operation of unknown kind. *)
Definition negative_insert : Operation := insert_op "client1" "x" (-1).
Definition replace_op : Operation := mkOperation "replace" 0 "x" "client1" 0 0.

End Scenarios.

Module LiveRoom.

Import Rooms.

(** A room created at time 0 whose only user was last active at time
    90000. *)
Definition alice : User := mkUser "u1" "Alice" "#FF6B6B" 0 None None 90000.

Definition room1 : Room := add_user (new_room 0 "room1" "python") alice.

Definition manager : RoomManager := {| rooms := {["room1" := room1]} |}.

End LiveRoom.

Module HubScenarios.

Import Hub.

(** A manager on which connection 7 was registered under the empty room
    identifier. *)
Definition unnamed_room : ConnectionManager := connect empty 7%nat "" "alice".

(** Connections 1 and 2 in room "room1". *)
Definition two_peers : ConnectionManager :=
  connect (connect empty 1%nat "room1" "alice") 2%nat "room1" "bob".

End HubScenarios.

(** * Properties *)

(** ** Python strings *)

Section PyStrFacts.

Import PyStr.

Lemma len_nonneg s : 0 ≤ len s.
Proof. unfold len. lia. Qed.

Lemma app_cons_str c (s1 s2 : string) :
  String c s1 +:+ s2 = String c (s1 +:+ s2).
Proof. reflexivity. Qed.

Lemma len_app s1 s2 : len (s1 +:+ s2) = len s1 + len s2.
Proof.
  unfold len. induction s1 as [|c s1 IH]; [reflexivity|].
  rewrite app_cons_str. cbn [String.length]. lia.
Qed.

Lemma app_assoc_str (s1 s2 s3 : string) :
  (s1 +:+ s2) +:+ s3 = s1 +:+ s2 +:+ s3.
Proof.
  induction s1 as [|c s1 IH]; [reflexivity|].
  by rewrite !app_cons_str, IH.
Qed.

Lemma take_drop_str n s : take n s +:+ drop n s = s.
Proof.
  revert s. induction n as [|n IH]; intros [|c s]; try reflexivity.
  cbn [take drop]. by rewrite app_cons_str, IH.
Qed.

Lemma length_take_str n s : String.length (take n s) = Nat.min n (String.length s).
Proof.
  revert s. induction n as [|n IH]; intros [|c s]; simpl; try done.
  by rewrite IH.
Qed.

Lemma drop_drop_str n m s : drop m (drop n s) = drop (n + m) s.
Proof.
  revert s. induction n as [|n IH]; intros s; simpl; [done|].
  destruct s as [|c s]; simpl; [by destruct m|]. apply IH.
Qed.

Lemma length_drop_str n s : String.length (drop n s) = (String.length s - n)%nat.
Proof.
  revert s. induction n as [|n IH]; intros [|c s]; simpl; try done.
Qed.

(** Inside the text a slice bound is the index itself. *)
Lemma bound_in_range s i : 0 ≤ i ≤ len s → bound s i = Z.to_nat i.
Proof.
  intros Hi. unfold bound.
  destruct (Z.ltb_spec i 0); [lia|]. f_equal. lia.
Qed.

(** [s[:i]] and [s[i:]] cut [s] in two at [i]. *)
Lemma slice_split s i :
  0 ≤ i ≤ len s →
  s = slice_to s i +:+ slice_from s i ∧ len (slice_to s i) = i.
Proof.
  intros Hi. unfold slice_to, slice_from. rewrite bound_in_range by done.
  split; [by rewrite take_drop_str|].
  unfold len in *. rewrite length_take_str. lia.
Qed.

(** [s[:i]], the [k] characters from [i] on, and [s[i+k:]]. *)
Lemma slice_split3 s i k :
  0 ≤ i → 0 ≤ k → i + k ≤ len s →
  ∃ mid, s = slice_to s i +:+ mid +:+ slice_from s (i + k)
         ∧ len (slice_to s i) = i ∧ len mid = k.
Proof.
  intros Hi Hk Hik.
  exists (take (Z.to_nat k) (drop (Z.to_nat i) s)).
  unfold slice_to, slice_from. rewrite !bound_in_range by lia.
  replace (Z.to_nat (i + k)) with (Z.to_nat i + Z.to_nat k)%nat by lia.
  rewrite <- drop_drop_str, !take_drop_str.
  split; [done|].
  unfold len in *. rewrite !length_take_str, length_drop_str. lia.
Qed.

End PyStrFacts.

(** ** The document replica *)

Section Replica.

Import PyStr Crdt Design Scenarios.

(** The two-pass loop of the code (filter, then fold) computes the
    one-pass adjustment of the design document. *)
Lemma fold_shift_adjust lastKnown log p :
  fold_left shift (List.filter (fun op => lastKnown <? version op) log) p
  = adjust lastKnown log p.
Proof.
  revert p. induction log as [|c log IH]; intros p; [reflexivity|].
  cbn [List.filter adjust].
  destruct (Z.ltb_spec lastKnown (version c)) as [Hv|Hv];
    destruct (decide (version c ≤ lastKnown)) as [Hd|Hd]; try lia.
  - cbn [fold_left]. rewrite IH. f_equal. unfold shift.
    destruct (String.eqb_spec (op_type c) "insert") as [Hi|Hi].
    + destruct (Z.leb_spec (position c) p);
        destruct (decide (op_type c = "insert" ∧ position c ≤ p)) as [?|Hn];
        try reflexivity; try (exfalso; lia); try (exfalso; tauto).
      destruct (decide (op_type c = "delete" ∧ position c < p)) as [[Hk _]|_];
        [congruence | reflexivity].
    + destruct (decide (op_type c = "insert" ∧ position c ≤ p)) as [[? _]|_];
        [done|].
      destruct (String.eqb_spec (op_type c) "delete") as [Hdel|Hdel].
      * destruct (Z.ltb_spec (position c) p);
          destruct (decide (op_type c = "delete" ∧ position c < p));
          try reflexivity; try (exfalso; lia); exfalso; tauto.
      * destruct (decide (op_type c = "delete" ∧ position c < p)) as [[? _]|_];
          done.
  - apply IH.
Qed.

(** C1.  [_transform_operation] keeps kind, payload, originating client
    and timestamp of the submitted operation, and its position is the
    design document's adjustment, [adjust], computed from the submitter's
    last-known version (0 when the client is unknown) over the log in
    order, then clamped to [>= 0]. *)
Theorem transform_operation_adjusts (self : CRDT) (operation : Operation) :
  let lastKnown := default 0 (client_versions self !! client_id operation) in
  let transformed := _transform_operation self operation in
  position transformed
    = Z.max 0 (adjust lastKnown (operations self) (position operation))
  ∧ 0 ≤ position transformed
  ∧ op_type transformed = op_type operation
  ∧ content transformed = content operation
  ∧ client_id transformed = client_id operation
  ∧ timestamp transformed = timestamp operation.
Proof.
  cbv zeta. unfold _transform_operation. cbn [position op_type content client_id timestamp].
  rewrite fold_shift_adjust. repeat split; lia.
Qed.

(** The text after [apply_operation] is the edit of the transformed
    operation. *)
Lemma apply_operation_text self operation :
  text (snd (apply_operation self operation))
  = edit (text self) (_transform_operation self operation).
Proof. reflexivity. Qed.

Lemma transform_position_nonneg self operation :
  0 ≤ position (_transform_operation self operation).
Proof. unfold _transform_operation. cbn [position]. lia. Qed.

(** An insert splices the payload in at the clamped position. *)
Lemma edit_insert content_ t :
  op_type t = "insert" → 0 ≤ position t →
  let pos := Z.min (position t) (len content_) in
  ∃ pre post, content_ = pre +:+ post ∧ len pre = pos
              ∧ edit content_ t = pre +:+ content t +:+ post.
Proof.
  intros Hk Hp pos. unfold edit. rewrite Hk. cbn [String.eqb Ascii.eqb].
  change (String.eqb "insert" "insert") with true. cbv iota. fold pos.
  pose proof (len_nonneg content_) as Hn.
  destruct (slice_split content_ pos) as [Hs Hl]; [lia|].
  by exists (slice_to content_ pos), (slice_from content_ pos).
Qed.

(** A delete removes the clamped span that starts at the clamped start. *)
Lemma edit_delete content_ t :
  op_type t = "delete" → 0 ≤ position t →
  let start := Z.min (position t) (len content_) in
  let span := Z.min (len (content t)) (len content_ - start) in
  ∃ pre mid post, content_ = pre +:+ mid +:+ post ∧ len pre = start
                  ∧ len mid = span ∧ edit content_ t = pre +:+ post.
Proof.
  intros Hk Hp start span. unfold edit. rewrite Hk.
  change (String.eqb "delete" "insert") with false.
  change (String.eqb "delete" "delete") with true. cbv iota. fold start.
  pose proof (len_nonneg content_) as Hn.
  pose proof (len_nonneg (content t)) as Hc.
  replace (Z.min (start + len (content t)) (len content_))
    with (start + span) by lia.
  destruct (slice_split3 content_ start span) as (mid & Hs & Hl & Hm); [lia..|].
  by exists (slice_to content_ start), mid, (slice_from content_ (start + span)).
Qed.

(** C4.  Applying an operation edits the text with the transformed
    operation: an Insert is spliced in, whole, at the transformed position
    clamped into [0, length(text)]; a Delete removes exactly
    [min(length(payload), length(text) - start)] characters from the
    clamped start on, whatever the payload's characters are.  Insert of
    " there" at 100 on "Hi" gives "Hi there"; a delete at 3 with a payload
    of length 7 on "Hello" gives "Hel". *)
Theorem apply_operation_edits_text :
  (∀ (self : CRDT) (operation : Operation),
     let transformed := _transform_operation self operation in
     let n := len (text self) in
     let start := Z.min (position transformed) n in
     let text' := text (snd (apply_operation self operation)) in
     0 ≤ start ≤ n
     ∧ (op_type operation = "insert" →
        ∃ pre post, text self = pre +:+ post ∧ len pre = start
                    ∧ text' = pre +:+ content operation +:+ post)
     ∧ (op_type operation = "delete" →
        ∃ pre mid post, text self = pre +:+ mid +:+ post ∧ len pre = start
                        ∧ len mid = Z.min (len (content operation)) (n - start)
                        ∧ text' = pre +:+ post))
  ∧ (∀ (content_ : string) (t t' : Operation),
       op_type t = "delete" → op_type t' = "delete" →
       position t = position t' → len (content t) = len (content t') →
       edit content_ t = edit content_ t')
  ∧ text (snd (apply_operation (seeded "Hi") (insert_op "user1" " there" 100)))
    = "Hi there"
  ∧ text (snd (apply_operation (seeded "Hello") (delete_op "user1" "loWorld" 3)))
    = "Hel".
Proof.
  split; [|split; [|split; reflexivity]].
  - intros self operation transformed n start text'.
    pose proof (transform_position_nonneg self operation) as Hp.
    pose proof (len_nonneg (text self)) as Hn.
    split; [subst start n; fold transformed in Hp; lia|].
    subst text'. rewrite apply_operation_text. fold transformed.
    split; intros Hk.
    + apply (edit_insert (text self) transformed Hk Hp).
    + apply (edit_delete (text self) transformed Hk Hp).
  - intros content_ t t' Hk Hk' Hp Hl. unfold edit.
    by rewrite Hk, Hk', Hp, Hl.
Qed.

(** The theorem at the insert of " there" at position 100 into "Hi" and at
    the delete of seven characters from position 3 of "Hello". *)
Lemma apply_operation_edits_text_witness :
  (∃ pre post, "Hi" = pre +:+ post ∧ len pre = 2
               ∧ text (snd (apply_operation (seeded "Hi")
                              (insert_op "user1" " there" 100)))
                 = pre +:+ " there" +:+ post)
  ∧ (∃ pre mid post, "Hello" = pre +:+ mid +:+ post ∧ len pre = 3
                     ∧ len mid = 2
                     ∧ text (snd (apply_operation (seeded "Hello")
                                    (delete_op "user1" "loWorld" 3)))
                       = pre +:+ post).
Proof.
  split.
  - apply (proj1 apply_operation_edits_text (seeded "Hi")
             (insert_op "user1" " there" 100)).
    reflexivity.
  - apply (proj1 apply_operation_edits_text (seeded "Hello")
             (delete_op "user1" "loWorld" 3)).
    reflexivity.
Defined.

(** C5, as stated: with "Hello" logged as client1's insert at version 1,
    the transform of client2's operation does not yield 11. *)
Lemma transform_hello_world_not_11 :
  text hello_v1 = "Hello" ∧ doc_version hello_v1 = 1
  ∧ client_versions hello_world !! "client2" = None
  ∧ position (_transform_operation hello_world bang) ≠ 5 + len " World".
Proof. repeat split; vm_compute; congruence. Qed.

(** C5, amended.  With "Hello" logged as client1's insert at version 1 and
    client2 at version 0, both of client1's inserts are unseen: the
    transform yields 5 + length("Hello") + length(" World") = 16, the
    insert is clamped to the end of "Hello World" and the final text is
    "Hello World!".  With "Hello" assigned to the text directly (empty log,
    version 0) the transform yields 5 + length(" World") = 11 and the final
    text is the same. *)
Theorem transform_hello_world :
  position (_transform_operation hello_world bang)
    = 5 + len "Hello" + len " World"
  ∧ position (_transform_operation hello_world bang) = 16
  ∧ text (snd (apply_operation hello_world bang)) = "Hello World!"
  ∧ (let world := apply_all [insert_op "client1" " World" 5] (seeded "Hello") in
     doc_version world = 1
     ∧ position (_transform_operation world bang) = 5 + len " World"
     ∧ position (_transform_operation world bang) = 11
     ∧ text (snd (apply_operation world bang)) = "Hello World!").
Proof. repeat split; vm_compute; reflexivity. Qed.

(** C2, as stated: an insert at position -1 and an operation of kind
    'replace', both malformed, are accepted on a fresh replica: the result
    is [True], the version is 1 and the operation is in the log. *)
Lemma malformed_operations_are_applied :
  malformed negative_insert
  ∧ apply_operation (init "doc") negative_insert
    = (true, {| document_id := "doc"; text := "x";
                operations := [mkOperation "insert" 0 "x" "client1" 0 1];
                doc_version := 1;
                client_versions := {["client1" := 1]} |})
  ∧ malformed replace_op
  ∧ apply_operation (init "doc") replace_op
    = (true, {| document_id := "doc"; text := "";
                operations := [mkOperation "replace" 0 "x" "client1" 0 1];
                doc_version := 1;
                client_versions := {["client1" := 1]} |})
  ∧ apply_operation (init "doc") replace_op ≠ (false, init "doc").
Proof.
  split; [left; cbn; lia|]. split; [reflexivity|].
  split; [right; split; discriminate|]. split; [reflexivity|discriminate].
Qed.

(** Below a log of non-negative positions a negative position is not
    shifted. *)
Lemma fold_shift_negative log p :
  p < 0 → Forall (fun c => 0 ≤ position c) log → fold_left shift log p = p.
Proof.
  intros Hp Hlog. induction Hlog as [|c log Hc _ IH]; [reflexivity|].
  cbn [fold_left]. replace (shift p c) with p; [exact IH|].
  unfold shift.
  destruct (String.eqb (op_type c) "insert").
  - destruct (Z.leb_spec (position c) p); [lia | reflexivity].
  - destruct (String.eqb (op_type c) "delete"); [|reflexivity].
    destruct (Z.ltb_spec (position c) p); [lia | reflexivity].
Qed.

Lemma Forall_filter_keep {A} (P : A → Prop) f (l : list A) :
  Forall P l → Forall P (List.filter f l).
Proof.
  induction 1 as [|x l Hx _ IH]; cbn [List.filter]; [constructor|].
  destruct (f x); [by constructor | done].
Qed.

(** An operation of unknown kind does not edit the text. *)
Lemma edit_unknown_kind content_ t :
  op_type t ≠ "insert" → op_type t ≠ "delete" → edit content_ t = content_.
Proof.
  intros Hi Hd. unfold edit.
  destruct (String.eqb_spec (op_type t) "insert"); [done|].
  by destruct (String.eqb_spec (op_type t) "delete").
Qed.

(** Every log built by [apply_operation] holds non-negative positions. *)
Lemma exec_log_nonneg calls self :
  Forall (fun c => 0 ≤ position c) (operations self) →
  Forall (fun c => 0 ≤ position c) (operations (exec calls self)).
Proof.
  revert self. induction calls as [|c calls IH]; intros self Hlog; [done|].
  change (exec (c :: calls) self) with (exec calls (step self c)).
  apply IH. destruct c as [op|s]; [|done].
  cbn [step apply_operation snd operations].
  apply Forall_app. split; [done|]. constructor; [|constructor].
  apply transform_position_nonneg.
Qed.

(** C2, amended.  [apply_operation] rejects no operation whose fields
    have the declared types: it returns [True], bumps the version by one,
    appends the transformed operation, stamped with the new version, to the
    log and records the new version for the submitting client.  A negative
    position is clamped by the transform to a position [>= 0] (to 0 when
    the log holds non-negative positions, as every log of applied
    operations does) and the operation is applied there; an operation of
    unknown kind leaves the text unchanged and is logged all the same. *)
Theorem apply_operation_never_rejects (self : CRDT) (operation : Operation) :
  let transformed := _transform_operation self operation in
  let self' := snd (apply_operation self operation) in
  fst (apply_operation self operation) = true
  ∧ doc_version self' = doc_version self + 1
  ∧ operations self'
    = (operations self ++ [stamp (doc_version self + 1) transformed])%list
  ∧ client_versions self' !! client_id operation = Some (doc_version self + 1)
  ∧ (position operation < 0 →
     0 ≤ position transformed
     ∧ text self' = edit (text self) transformed
     ∧ (Forall (fun c => 0 ≤ position c) (operations self) →
        position transformed = 0))
  ∧ (op_type operation ≠ "insert" → op_type operation ≠ "delete" →
     text self' = text self).
Proof.
  cbv zeta. repeat split.
  - cbn. apply lookup_insert_eq.
  - apply transform_position_nonneg.
  - intros Hlog. unfold _transform_operation. cbn [position].
    rewrite fold_shift_negative; [lia | done | by apply Forall_filter_keep].
  - intros Hi Hd. rewrite apply_operation_text.
    by apply edit_unknown_kind.
Qed.

(** The theorem at the negative insert and at the unknown kind, on a
    replica that holds "Hello". *)
Lemma apply_operation_never_rejects_witness :
  position (_transform_operation hello_v1 negative_insert) = 0
  ∧ text (snd (apply_operation hello_v1 replace_op)) = text hello_v1.
Proof.
  split.
  - apply (apply_operation_never_rejects hello_v1 negative_insert).
    + cbn. lia.
    + repeat constructor; cbn; lia.
  - apply (apply_operation_never_rejects hello_v1 replace_op); discriminate.
Defined.

(** [edit] does not read the version stamp. *)
Lemma edit_stamp content_ v t : edit content_ (stamp v t) = edit content_ t.
Proof. reflexivity. Qed.

Lemma replay_snoc log t : replay (log ++ [t])%list = edit (replay log) t.
Proof. unfold replay. by rewrite fold_left_app. Qed.

Lemma set_content_calls_nonneg calls : 0 ≤ set_content_calls calls.
Proof. induction calls as [|[?|?] calls IH]; cbn [set_content_calls]; lia. Qed.

(** Every call bumps the version; only [apply_operation] extends the log. *)
Lemma exec_version calls self :
  doc_version (exec calls self) - Z.of_nat (length (operations (exec calls self)))
  = doc_version self - Z.of_nat (length (operations self))
    + set_content_calls calls.
Proof.
  revert self. induction calls as [|c calls IH]; intros self.
  - cbn. lia.
  - change (exec (c :: calls) self) with (exec calls (step self c)).
    rewrite IH. destruct c as [op|s]; cbn [step set_content_calls].
    + cbn [apply_operation snd doc_version operations].
      rewrite length_app. cbn [length]. lia.
    + cbn [set_content doc_version operations]. lia.
Qed.

(** [apply_operation] keeps the text equal to the replay of the log. *)
Lemma apply_all_replay ops self :
  text self = replay (operations self) →
  text (apply_all ops self) = replay (operations (apply_all ops self)).
Proof.
  revert self. induction ops as [|op ops IH]; intros self Hinv; [done|].
  change (apply_all (op :: ops) self)
    with (apply_all ops (snd (apply_operation self op))).
  apply IH. cbn [apply_operation snd text operations].
  by rewrite replay_snoc, edit_stamp, <- Hinv.
Qed.

Lemma exec_without_set_content calls self :
  set_content_calls calls = 0 →
  ∃ ops, calls = ApplyOperation <$> ops ∧ exec calls self = apply_all ops self.
Proof.
  revert self. induction calls as [|c calls IH]; intros self Hn.
  - by exists [].
  - pose proof (set_content_calls_nonneg calls) as Hc.
    destruct c as [op|s]; cbn [set_content_calls] in Hn; [|lia].
    destruct (IH (step self (ApplyOperation op)) Hn) as (ops & -> & Hrun).
    exists (op :: ops). split; [done|]. exact Hrun.
Qed.

(** C3, as stated: after [set_content] on a fresh replica the version is 1
    and the log is empty, and the text "abc" is not the replay of the
    log. *)
Lemma set_content_breaks_invariant :
  let self := exec [SetContent "abc"] (init "doc") in
  doc_version self = 1 ∧ length (operations self) = 0%nat
  ∧ text self = "abc" ∧ replay (operations self) = ""
  ∧ ¬ replica_invariant self.
Proof.
  cbv zeta. repeat split. intros [Hv _]. vm_compute in Hv. discriminate.
Qed.

(** C3, amended.  In every state reached from the initial one by
    [apply_operation] and [set_content] calls, the version is the length of
    the log plus the number of [set_content] calls; when no [set_content]
    was called the version is the length of the log and the text is the
    replay of the log, in order, from the empty string. *)
Theorem version_and_replay_invariant (d : string) (calls : list call) :
  let self := exec calls (init d) in
  doc_version self
    = Z.of_nat (length (operations self)) + set_content_calls calls
  ∧ (set_content_calls calls = 0 → replica_invariant self).
Proof.
  cbv zeta. pose proof (exec_version calls (init d)) as Hv.
  cbn [init doc_version operations length] in Hv.
  split; [lia|]. intros Hn. split; [lia|].
  destruct (exec_without_set_content calls (init d) Hn) as (ops & _ & ->).
  by apply apply_all_replay.
Qed.

(** The invariant after client1's two inserts. *)
Lemma version_and_replay_invariant_witness :
  replica_invariant
    (exec [ApplyOperation (insert_op "client1" "Hello" 0);
           ApplyOperation (insert_op "client1" " World" 5)] (init "doc")).
Proof.
  apply (version_and_replay_invariant "doc"
           [ApplyOperation (insert_op "client1" "Hello" 0);
            ApplyOperation (insert_op "client1" " World" 5)]).
  reflexivity.
Defined.

(** What one [apply_operation] does to the length of the text. *)
Lemma apply_operation_length self op :
  len (text (snd (apply_operation self op)))
  = len (text self)
    + (if decide (op_type op = "insert") then len (content op) else 0)
    - (if decide (op_type op = "delete")
       then clamped_delete_length self op else 0).
Proof.
  rewrite apply_operation_text.
  pose proof (transform_position_nonneg self op) as Hp.
  destruct (decide (op_type op = "insert")) as [Hi|Hi];
    destruct (decide (op_type op = "delete")) as [Hd|Hd].
  - congruence.
  - destruct (edit_insert (text self) (_transform_operation self op) Hi Hp)
      as (pre & post & Hs & _ & ->).
    apply (f_equal len) in Hs. rewrite !len_app in *.
    cbn [_transform_operation content]. lia.
  - destruct (edit_delete (text self) (_transform_operation self op) Hd Hp)
      as (pre & mid & post & Hs & _ & Hm & ->).
    apply (f_equal len) in Hs. rewrite !len_app in *.
    unfold clamped_delete_length. cbn [_transform_operation content] in *. lia.
  - rewrite edit_unknown_kind by done. lia.
Qed.

(** Length and version after any sequence of operations, from any
    replica. *)
Lemma apply_all_length_version ops self :
  len (text (apply_all ops self))
  = len (text self) + inserted ops - removed self ops
  ∧ doc_version (apply_all ops self)
    = doc_version self + Z.of_nat (length ops).
Proof.
  revert self. induction ops as [|op ops IH]; intros self.
  - cbn. lia.
  - change (apply_all (op :: ops) self)
      with (apply_all ops (snd (apply_operation self op))).
    destruct (IH (snd (apply_operation self op))) as [-> ->].
    rewrite apply_operation_length. cbn [inserted removed length].
    cbn [apply_operation snd doc_version]. lia.
Qed.

(** C7.  After any sequence of valid Insert/Delete operations applied to
    an initially empty document, the length of the text is the sum of the
    insert payload lengths minus the sum of the clamped delete lengths, and
    the version is the number of operations applied. *)
Theorem length_and_version_after_operations (d : string) (ops : list Operation) :
  Forall valid ops →
  let self := apply_all ops (init d) in
  len (text self) = inserted ops - removed (init d) ops
  ∧ doc_version self = Z.of_nat (length ops).
Proof.
  intros _. cbv zeta.
  destruct (apply_all_length_version ops (init d)) as [-> ->].
  cbn [init text doc_version]. change (len "") with 0. lia.
Qed.

(** "Hello World" typed by user1, who then deletes fifteen characters
    from position 6: 11 inserted, 5 removed. *)
Lemma length_and_version_after_operations_witness :
  let ops := [insert_op "user1" "Hello World" 0;
              delete_op "user1" "World.........." 6] in
  let self := apply_all ops (init "doc") in
  (len (text self) = inserted ops - removed (init "doc") ops
   ∧ doc_version self = 2)
  ∧ text self = "Hello " ∧ inserted ops = 11 ∧ removed (init "doc") ops = 5.
Proof.
  cbv zeta. split; [|by vm_compute].
  apply (length_and_version_after_operations "doc"
           [insert_op "user1" "Hello World" 0;
            delete_op "user1" "World.........." 6]).
  unfold valid. constructor; [split; [by left | cbn; lia]|].
  constructor; [split; [by right | cbn; lia]|]. constructor.
Defined.

End Replica.

(** ** Parsing an operation message *)

Section Parsing.

Import PyStr Crdt Design.

(** Inserting the empty string leaves the text as it is. *)
Lemma edit_insert_empty content_ t :
  op_type t = "insert" → content t = "" → 0 ≤ position t →
  edit content_ t = content_.
Proof.
  intros Hk Hc Hp.
  destruct (edit_insert content_ t Hk Hp) as (pre & post & -> & _ & ->).
  by rewrite Hc.
Qed.

(** C10.  [Operation.from_dict] returns an operation for every
    dictionary: a key that is present gives its value, an absent key its
    default, 'insert' for the kind, 0 for the position, the empty string
    for the payload and for the client, 0 for the version.  From the empty
    dictionary this is an insert of the empty string at position 0, and
    the message handler applies it like any other operation: it is
    accepted, the text stays as it is and the version goes up by one. *)
Theorem from_dict_defaults :
  (∀ now, from_dict now empty_dict = mkOperation "insert" 0 "" "" now 0)
  ∧ (∀ now data,
       let op := from_dict now data in
       (d_type data = None → op_type op = "insert")
       ∧ (d_position data = None → position op = 0)
       ∧ (d_content data = None → content op = "")
       ∧ (d_clientId data = None → client_id op = "")
       ∧ (d_version data = None → version op = 0)
       ∧ (∀ v, d_type data = Some v → op_type op = v)
       ∧ (∀ v, d_position data = Some v → position op = v)
       ∧ (∀ v, d_content data = Some v → content op = v)
       ∧ (∀ v, d_clientId data = Some v → client_id op = v)
       ∧ (∀ v, d_timestamp data = Some v → timestamp op = v)
       ∧ (∀ v, d_version data = Some v → version op = v))
  ∧ (∀ now user_id operation crdt,
       operation = None ∨ operation = Some empty_dict →
       let result := Main.handle_operation now user_id operation crdt in
       fst result = true
       ∧ text (snd result) = text crdt
       ∧ doc_version (snd result) = doc_version crdt + 1
       ∧ ∃ logged, last (operations (snd result)) = Some logged
                   ∧ op_type logged = "insert" ∧ content logged = "").
Proof.
  split; [reflexivity|]. split.
  - intros now data op. subst op. unfold from_dict.
    cbn [op_type position content client_id timestamp version].
    repeat split; try (intros ->; reflexivity); intros v ->; reflexivity.
  - intros now user_id operation crdt Hop result.
    assert (Hparsed : Crdt.get operation empty_dict = empty_dict)
      by (destruct Hop as [-> | ->]; reflexivity).
    subst result. unfold Main.handle_operation. rewrite Hparsed.
    set (op := {| op_type := _ |}).
    split; [reflexivity|]. split; [|split; [reflexivity|]].
    + rewrite apply_operation_text.
      apply edit_insert_empty; [reflexivity..|].
      apply transform_position_nonneg.
    + eexists. cbn [apply_operation snd operations].
      rewrite last_snoc. split; [reflexivity|]. by split.
Qed.

(** The handler on a message without an ['operation'] entry, sent to a
    replica that holds "Hello". *)
Lemma from_dict_defaults_witness :
  text (snd (Main.handle_operation 42 "user2" None Scenarios.hello_v1))
  = "Hello".
Proof.
  apply (from_dict_defaults). by left.
Defined.

End Parsing.

(** ** The room registry *)

Section Registry.

Import Rooms LiveRoom.

(** C6, on the code.  At time 90100 the room [room1] has an active user,
    and is more than 24 hours old.  [cleanup_inactive_rooms] leaves it in
    place because of the active user; [delete_room] and the DELETE handler
    remove it and report success. *)
Theorem delete_room_discards_active_room :
  get_active_users 90100 room1 = [alice]
  ∧ cleanup_inactive_rooms 90100 24 manager = (0%nat, manager)
  ∧ Rooms.delete_room manager "room1" = (true, {| rooms := ∅ |})
  ∧ Main.delete_room manager "room1" = (Main.Deleted "room1", {| rooms := ∅ |}).
Proof. repeat split. Qed.

End Registry.

(** ** The connection hub *)

Section ConnectionHub.

Import Hub Design HubScenarios.

Lemma elem_of_send_loop send_fails (m : message) exclude l c (m' : message) :
  (c, m') ∈ (send_loop send_fails m exclude l).1
  ↔ c ∈ l ∧ Some c ≠ exclude ∧ m' = m.
Proof.
  induction l as [|x l IH]; cbn [send_loop].
  - cbn [fst]. split; [by intros ?%elem_of_nil | by intros [?%elem_of_nil _]].
  - destruct (send_loop send_fails m exclude l) as [sent disconnected].
    cbn [fst] in IH. rewrite elem_of_cons.
    destruct (bool_decide_reflect (Some x = exclude)) as [Hx|Hx].
    + cbn [fst]. rewrite IH. split; [tauto|].
      intros ([->|Hc] & Hne & ->); [done | tauto].
    + assert (Hhead : ((c, m') ∈ (x, m) :: sent)
                      ↔ c ∈ x :: l ∧ Some c ≠ exclude ∧ m' = m).
      { rewrite !elem_of_cons, IH. split.
        - intros [[= -> ->]|(? & ? & ?)]; tauto.
        - intros ([->|Hc] & Hne & ->); [by left | tauto]. }
      rewrite <- elem_of_cons. by destruct (send_fails x).
Qed.

Lemma NoDup_send_loop send_fails (m : message) exclude l :
  NoDup l → NoDup (send_loop send_fails m exclude l).1.
Proof.
  induction 1 as [|x l Hx Hl IH]; cbn [send_loop]; [constructor|].
  pose proof (elem_of_send_loop send_fails m exclude l x m) as Hin.
  destruct (send_loop send_fails m exclude l) as [sent disconnected].
  cbn [fst] in *.
  assert (Hnew : NoDup ((x, m) :: sent)) by (constructor; [tauto | done]).
  destruct (bool_decide (Some x = exclude)); [done|].
  by destruct (send_fails x).
Qed.

(** C8.  [broadcast_to_room] with [exclude=connA] calls [send_json], with
    the message tagged with the timestamp, once on every connection
    registered under the room other than [connA], and on no other
    connection; when the room holds no connection other than [connA], or is
    not registered, nothing is sent. *)
Theorem broadcast_to_room_excludes (send_fails : conn → bool) (now : string)
    (self : ConnectionManager) (message_ : message) (room_id : string)
    (connA : conn) :
  let result :=
    broadcast_to_room send_fails now self message_ room_id (Some connA) in
  (∀ c m, (c, m) ∈ result.1
          ↔ c ∈ room_connections self room_id ∧ c ≠ connA
            ∧ m = <["timestamp" := now]> message_)
  ∧ NoDup result.1
  ∧ (room_connections self room_id ⊆ {[connA]} → result.1 = [])
  ∧ (active_connections self !! room_id = None → result = ([], self)).
Proof.
  cbv zeta.
  assert (Hsent : ∀ c m,
    (c, m) ∈ (broadcast_to_room send_fails now self message_ room_id
                (Some connA)).1
    ↔ c ∈ room_connections self room_id ∧ c ≠ connA
      ∧ m = <["timestamp" := now]> message_).
  { intros c m. unfold broadcast_to_room, room_connections.
    destruct (active_connections self !! room_id) as [conns|]; cbn [default].
    - pose proof (elem_of_send_loop send_fails (<["timestamp" := now]> message_)
                    (Some connA) (elements conns) c m) as Hin.
      destruct (send_loop _ _ _ _) as [sent disconnected]. cbn [fst] in *.
      rewrite Hin, elem_of_elements.
      split; intros (H1 & H2 & H3); repeat split; try done;
        intros E; apply H2; congruence.
    - cbn [fst]. split; [by intros ?%elem_of_nil|].
      by intros [?%not_elem_of_empty _]. }
  split; [exact Hsent|]. split; [|split].
  - unfold broadcast_to_room.
    destruct (active_connections self !! room_id) as [conns|];
      [|cbn; constructor].
    pose proof (NoDup_send_loop send_fails (<["timestamp" := now]> message_)
                  (Some connA) (elements conns) (NoDup_elements conns)) as Hnd.
    by destruct (send_loop _ _ _ _) as [sent disconnected].
  - intros Hsub.
    destruct (broadcast_to_room _ _ _ _ _ _).1 as [|[c m] sent] eqn:E; [done|].
    exfalso. destruct (proj1 (Hsent c m)) as (Hin & Hne & _);
      [rewrite ?E; left|].
    apply Hsub, elem_of_singleton in Hin. done.
  - intros Hnone. unfold broadcast_to_room. by rewrite Hnone.
Qed.

(** The two-peer room: a broadcast that excludes connection 1 reaches
    connection 2 alone; excluding the only connection of a room sends
    nothing. *)
Lemma broadcast_to_room_excludes_witness :
  (broadcast_to_room (fun _ => false) "t" two_peers ∅ "room1" (Some 1%nat)).1
  = [(2%nat, {["timestamp" := "t"]})]
  ∧ (broadcast_to_room (fun _ => false) "t" unnamed_room ∅ "" (Some 7%nat)).1
    = [].
Proof.
  split; [by vm_compute|].
  apply (broadcast_to_room_excludes (fun _ => false) "t" unnamed_room ∅ ""
           7%nat).
  by vm_compute.
Defined.

Lemma truthy_nonempty s : s ≠ "" → truthy s = true.
Proof. intros Hs. unfold truthy. by destruct (String.eqb_spec s ""). Qed.



(** The room sets after [disconnect] of a connection registered under a
    non-empty room identifier. *)
Lemma disconnect_room_connections self websocket r room_id :
  connection_rooms self !! websocket = Some r → r ≠ "" →
  room_connections (disconnect self websocket).2 room_id
  = if decide (room_id = r)
    then room_connections self r ∖ {[websocket]}
    else room_connections self room_id.
Proof.
  intros Hr Hne.
  assert (Hactive : active_connections (disconnect self websocket).2
    = match active_connections self !! r with
      | Some conns =>
          if bool_decide (conns ∖ {[websocket]} = ∅)
          then delete r (active_connections self)
          else <[r := conns ∖ {[websocket]}]> (active_connections self)
      | None => active_connections self
      end).
  { unfold disconnect. rewrite Hr, (truthy_nonempty r Hne).
    destruct (connection_users self !! websocket) as [u|];
      [destruct (true && truthy u)|]; reflexivity. }
  unfold room_connections. rewrite Hactive.
  destruct (active_connections self !! r) as [conns|] eqn:Hconns.
  - destruct (bool_decide_reflect (conns ∖ {[websocket]} = ∅)) as [He|He];
      destruct (decide (room_id = r)) as [->|Hroom].
    + rewrite lookup_delete_eq. cbn [default from_option id]. by rewrite He.
    + by rewrite lookup_delete_ne.
    + by rewrite lookup_insert_eq.
    + by rewrite lookup_insert_ne.
  - destruct (decide (room_id = r)) as [->|Hroom]; [|done].
    rewrite Hconns. cbn [default from_option id].
    symmetry. apply (difference_disjoint_L (C:=gset conn)).
    apply disjoint_empty_l.
Qed.

(** The truth-value tests of [disconnect] at the empty string, an
    identifier the application never issues: for connection 7, registered
    under the room identifier [""], [disconnect] returns [None] and leaves
    7 in the room's set. *)
Lemma disconnect_keeps_unnamed_room :
  connection_rooms unnamed_room !! 7%nat = Some ""
  ∧ connection_users unnamed_room !! 7%nat = Some "alice"
  ∧ 7%nat ∈ room_connections unnamed_room ""
  ∧ (disconnect unnamed_room 7%nat).1 = None
  ∧ 7%nat ∈ room_connections (disconnect unnamed_room 7%nat).2 "".
Proof.
  assert (Hin : 7%nat ∈ room_connections unnamed_room "").
  { unfold room_connections, unnamed_room, connect. cbn [active_connections].
    rewrite lookup_insert_eq. cbn [default from_option id].
    apply elem_of_union_r, elem_of_singleton. reflexivity. }
  repeat split; done.
Qed.

(** [connect] of a connection that is not registered keeps a manager
    consistent, and so does [disconnect] of a connection registered under a
    non-empty room identifier. *)
Lemma connect_consistent self websocket room_id user_id :
  consistent self → connection_rooms self !! websocket = None →
  consistent (connect self websocket room_id user_id).
Proof.
  intros Hcons Hnew r c. unfold room_connections, connect.
  cbn [active_connections connection_rooms].
  destruct (decide (r = room_id)) as [->|Hr].
  - rewrite lookup_insert_eq. cbn [default from_option id].
    rewrite elem_of_union.
    intros [Hin| ->%elem_of_singleton]; [|by rewrite lookup_insert_eq].
    apply Hcons in Hin. rewrite lookup_insert_ne; [done|congruence].
  - rewrite lookup_insert_ne by done. intros Hin. apply Hcons in Hin.
    rewrite lookup_insert_ne; [done|congruence].
Qed.

Lemma disconnect_consistent self websocket r :
  consistent self → connection_rooms self !! websocket = Some r → r ≠ "" →
  consistent (disconnect self websocket).2.
Proof.
  intros Hcons Hr Hne room_id c.
  rewrite (disconnect_room_connections self websocket r room_id Hr Hne).
  assert (Hrooms : connection_rooms (disconnect self websocket).2
                   = delete websocket (connection_rooms self)).
  { unfold disconnect. rewrite Hr.
    destruct (connection_users self !! websocket) as [u|];
      [destruct (truthy r && truthy u)|]; reflexivity. }
  rewrite Hrooms.
  destruct (decide (room_id = r)) as [->|Hroom].
  - intros [Hin Hc%not_elem_of_singleton]%elem_of_difference.
    rewrite lookup_delete_ne by done. by apply Hcons.
  - intros Hin. pose proof (Hcons _ _ Hin) as Hc.
    rewrite lookup_delete_ne; [done|congruence].
Qed.

End ConnectionHub.

(** ** The repository's unit tests, on the model

    [tests/test_crdt.py] and [tests/test_room_manager.py], each test with
    the values it asserts. *)

Section UnitTests.

Import PyStr Crdt Design Scenarios.

(** [test_insert_operation] *)
Example test_insert_operation :
  let '(ok, crdt) := apply_operation (init "test-doc") (insert_op "user1" "Hello" 0) in
  ok = true ∧ text crdt = "Hello" ∧ doc_version crdt = 1.
Proof. by vm_compute. Qed.

(** [test_delete_operation] *)
Example test_delete_operation :
  let '(ok, crdt) :=
    apply_operation (seeded "Hello World") (delete_op "user1" "World" 6) in
  ok = true ∧ text crdt = "Hello ".
Proof. by vm_compute. Qed.

(** [test_concurrent_inserts] *)
Example test_concurrent_inserts :
  let crdt := apply_all [insert_op "user1" "A" 0; insert_op "user2" "B" 0]
                        (init "test-doc") in
  text crdt = "AB" ∧ doc_version crdt = 2.
Proof. by vm_compute. Qed.

(** [test_get_operations_since] *)
Example test_get_operations_since :
  let crdt := apply_all [insert_op "user1" "0" 0; insert_op "user1" "1" 1;
                         insert_op "user1" "2" 2; insert_op "user1" "3" 3;
                         insert_op "user1" "4" 4] (init "test-doc") in
  let ops := get_operations_since crdt 2 in
  length ops = 3%nat ∧ Forall (fun op => 2 < version op) ops.
Proof. vm_compute. split; [done|]. repeat constructor. Qed.

(** [test_set_content] *)
Example test_set_content :
  let crdt := set_content (init "test-doc") "Initial content" in
  text crdt = "Initial content" ∧ doc_version crdt = 1.
Proof. by vm_compute. Qed.

(** [test_delete_with_placeholder_content]: five NUL characters. *)
Example test_delete_with_placeholder_content :
  let nul := Ascii.zero in
  let placeholder := String nul (String nul (String nul (String nul (String nul "")))) in
  let crdt := apply_all [delete_op "user1" placeholder 6] (seeded "Hello World") in
  text crdt = "Hello " ∧ len (text crdt) = 6.
Proof. by vm_compute. Qed.

(** [test_operation_from_dict] *)
Example test_operation_from_dict :
  from_dict 0 (mkOperationDict (Some "delete") (Some 3) (Some "abc")
                               (Some "user2") None (Some 2))
  = mkOperation "delete" 3 "abc" "user2" 0 2.
Proof. reflexivity. Qed.

(** [test_get_active_users]: a user last active 400 seconds ago is not
    active. *)
Example test_get_active_users :
  let room :=
    Rooms.add_user
      (Rooms.add_user (Rooms.new_room 1000 "room1" "python")
         (Rooms.mkUser "user1" "Alice" "#FF0000" 0 None None 1000))
      (Rooms.mkUser "user2" "Bob" "#00FF00" 0 None None 600) in
  Rooms.user_id <$> Rooms.get_active_users 1000 room = ["user1"].
Proof. by vm_compute. Qed.

(** [test_cleanup_inactive_rooms]: of a room created 25 hours ago and a
    recent one, both without users, the old one is removed. *)
Example test_cleanup_inactive_rooms :
  let manager :=
    {| Rooms.rooms := {["old" := Rooms.new_room 0 "old" "python";
                        "recent" := Rooms.new_room 90000 "recent" "python"]} |} in
  let '(cleaned, manager') := Rooms.cleanup_inactive_rooms 90000 24 manager in
  cleaned = 1%nat
  ∧ Rooms.room_exists manager' "old" = false
  ∧ Rooms.room_exists manager' "recent" = true.
Proof. by vm_compute. Qed.

End UnitTests.

(** ** Histories of a replica *)

Section ReplicaHistories.

Import Crdt Design Scenarios.

Lemma apply_all_snoc ops op self :
  apply_all (ops ++ [op]) self
  = snd (apply_operation (apply_all ops self) op).
Proof. unfold apply_all. by rewrite fold_left_app. Qed.

Lemma exec_snoc calls c self :
  exec (calls ++ [c]) self = step (exec calls self) c.
Proof. unfold exec. by rewrite fold_left_app. Qed.

(** [from_dict] reads back what [to_dict] wrote, whatever the clock
    says. *)
Theorem from_dict_to_dict (now : Z) (op : Operation) :
  from_dict now (to_dict op) = op
  ∧ to_dict (from_dict now (to_dict op)) = to_dict op.
Proof. by destruct op. Qed.

(** The stamps stay in order under both mutating calls. *)
Lemma step_stamps_in_order self c :
  stamps_in_order self → stamps_in_order (step self c).
Proof.
  intros (Hv & Hlog & Hsorted & Hcv). destruct c as [op|s].
  - cbn [step apply_operation snd]. unfold stamps_in_order.
    cbn [doc_version operations client_versions].
    split; [lia|]. split; [|split].
    + apply Forall_app. split.
      * eapply Forall_impl; [exact Hlog|]. cbn. intros; lia.
      * constructor; [cbn; lia | constructor].
    + rewrite fmap_app. apply StronglySorted_app_2; [|done|].
      * intros v1 v2 Hv1 Hv2. apply list_elem_of_fmap in Hv1 as (o & -> & Ho).
        cbn in Hv2. apply list_elem_of_singleton in Hv2 as ->.
        rewrite Forall_forall in Hlog. specialize (Hlog o Ho). cbn in Hlog. lia.
      * cbn. repeat constructor.
    + intros c v Hc. destruct (decide (c = client_id op)) as [->|Hne].
      * rewrite lookup_insert_eq in Hc. injection Hc as <-.
        eexists. split; [apply elem_of_app; right; by left|]. by split.
      * rewrite lookup_insert_ne in Hc by done.
        destruct (Hcv c v Hc) as (o & Ho & Hoc & Hov).
        exists o. split; [apply elem_of_app; by left | by split].
  - cbn [step]. unfold stamps_in_order, set_content.
    cbn [doc_version operations client_versions].
    split; [lia|]. split; [|by split].
    eapply Forall_impl; [exact Hlog|]. cbn. intros; lia.
Qed.

Lemma exec_stamps_aux d calls : stamps_in_order (exec calls (init d)).
Proof.
  induction calls as [|c calls IH] using rev_ind.
  - unfold stamps_in_order. cbn. split; [lia|]. split; [constructor|].
    split; [constructor|]. intros c v Hc. by rewrite lookup_empty in Hc.
  - rewrite exec_snoc. by apply step_stamps_in_order.
Qed.

(** Version stamps of a replica: after any sequence of [apply_operation]
    and [set_content] calls on a fresh replica, the logged versions lie
    between 1 and the replica's version and increase strictly along the
    log, and the version recorded for a client is the stamp of one of its
    logged operations, so it never exceeds the replica's version. *)
Theorem exec_stamps_in_order (d : string) (calls : list call) :
  stamps_in_order (exec calls (init d))
  ∧ ∀ c v, client_versions (exec calls (init d)) !! c = Some v →
           1 ≤ v ≤ doc_version (exec calls (init d)).
Proof.
  pose proof (exec_stamps_aux d calls) as H.
  split; [exact H|]. intros c v Hc.
  destruct H as (_ & Hlog & _ & Hcv).
  destruct (Hcv c v Hc) as (o & Ho & _ & <-).
  rewrite Forall_forall in Hlog. by apply Hlog.
Qed.

Lemma filter_all_false {A} (f : A → bool) (l : list A) :
  Forall (fun x => f x = false) l → List.filter f l = [].
Proof.
  induction 1 as [|x l Hx _ IH]; [done|]. cbn [List.filter]. by rewrite Hx.
Qed.

Lemma filter_all_true {A} (f : A → bool) (l : list A) :
  Forall (fun x => f x = true) l → List.filter f l = l.
Proof.
  induction 1 as [|x l Hx _ IH]; [done|]. cbn [List.filter].
  by rewrite Hx, IH.
Qed.

(** On a list whose versions increase, the entries above a version form a
    suffix. *)
Lemma filter_increasing_suffix v (log : list Operation) :
  StronglySorted Z.lt (version <$> log) →
  List.filter (fun op => v <? version op) log `suffix_of` log.
Proof.
  induction log as [|x log IH]; intros Hsorted; [done|].
  rewrite fmap_cons in Hsorted.
  apply StronglySorted_cons in Hsorted as [Hx Hsorted].
  cbn [List.filter]. destruct (Z.ltb_spec v (version x)) as [Hv|Hv].
  - rewrite filter_all_true; [done|].
    rewrite Forall_fmap in Hx. eapply Forall_impl; [exact Hx|].
    cbn. intros o Ho. apply Z.ltb_lt. lia.
  - by apply suffix_cons_r, IH.
Qed.

Lemma exec_apply_all ops self :
  exec (ApplyOperation <$> ops) self = apply_all ops self.
Proof.
  revert self. induction ops as [|op ops IH]; intros self; [done|].
  cbn. apply IH.
Qed.

Lemma set_content_calls_apply ops :
  set_content_calls (ApplyOperation <$> ops) = 0.
Proof. induction ops as [|op ops IH]; [done|]. exact IH. Qed.

(** Without [set_content] the version is the length of the log. *)
Lemma apply_all_version_log d ops :
  doc_version (apply_all ops (init d))
  = Z.of_nat (length (operations (apply_all ops (init d)))).
Proof.
  pose proof (exec_version (ApplyOperation <$> ops) (init d)) as Hlen.
  rewrite exec_apply_all in Hlen.
  rewrite set_content_calls_apply in Hlen.
  cbn [init doc_version operations length] in Hlen. lia.
Qed.

(** [get_operations_since] returns a suffix of the log.  On a replica
    built by [apply_operation] calls alone it is the log without its first
    [v] entries: everything for [v <= 0], nothing for [v] at or above the
    replica's version. *)
Theorem get_operations_since_suffix :
  (∀ d ops v,
     get_operations_since (apply_all ops (init d)) v
     = drop (Z.to_nat v) (operations (apply_all ops (init d))))
  ∧ (∀ d calls v,
       get_operations_since (exec calls (init d)) v
       `suffix_of` operations (exec calls (init d))).
Proof.
  split.
  - intros d ops v. unfold get_operations_since.
    induction ops as [|op ops IH] using rev_ind; [by destruct (Z.to_nat v)|].
    rewrite apply_all_snoc. cbn [apply_operation snd operations].
    pose proof (apply_all_version_log d ops) as Hlen.
    rewrite List.filter_app, IH, drop_app. f_equal.
    cbn [List.filter version stamp].
    destruct (Z.ltb_spec v (doc_version (apply_all ops (init d)) + 1)).
    + by replace (Z.to_nat v - length (operations (apply_all ops (init d))))%nat
        with 0%nat by lia.
    + destruct (Z.to_nat v - length (operations (apply_all ops (init d))))%nat
        as [|n] eqn:E; [lia | by destruct n].
  - intros d calls v. unfold get_operations_since.
    apply filter_increasing_suffix.
    by destruct (exec_stamps_aux d calls) as (_ & _ & ? & _).
Qed.

Lemma up_to_date_client_not_transformed_aux d calls op :
  client_versions (exec calls (init d)) !! client_id op
  = Some (doc_version (exec calls (init d))) →
  _transform_operation (exec calls (init d)) op = clamped op.
Proof.
  intros Hc. unfold _transform_operation, clamped.
  rewrite Hc. cbn [default from_option id].
  rewrite filter_all_false; [done|].
  destruct (exec_stamps_aux d calls) as (_ & Hlog & _ & _).
  eapply Forall_impl; [exact Hlog|]. cbn. intros o Ho.
  apply Z.ltb_ge. lia.
Qed.

(** A client whose recorded version is the replica's version has seen the
    whole log: its operation is not shifted, only clamped at 0. *)
Theorem up_to_date_client_not_transformed (d : string) (calls : list call)
    (op : Operation) :
  let self := exec calls (init d) in
  client_versions self !! client_id op = Some (doc_version self) →
  _transform_operation self op = clamped op.
Proof. cbv zeta. apply up_to_date_client_not_transformed_aux. Qed.

(** client1 wrote "Hello" and is up to date: its next insert at 5 stays at
    5. *)
Lemma up_to_date_client_not_transformed_witness :
  _transform_operation hello_v1 (insert_op "client1" " World" 5)
  = clamped (insert_op "client1" " World" 5).
Proof.
  apply (up_to_date_client_not_transformed "doc"
           [ApplyOperation (insert_op "client1" "Hello" 0)]
           (insert_op "client1" " World" 5)).
  reflexivity.
Defined.

(** On a replica that one client alone has written, the next operation
    of that client is not shifted. *)
Lemma single_author_transform d c ops op :
  Forall (fun o => client_id o = c) ops → client_id op = c →
  _transform_operation (apply_all ops (init d)) op = clamped op.
Proof.
  intros Hops Hop.
  destruct ops as [|o ops _] using rev_ind; [reflexivity|].
  rewrite <- exec_apply_all.
  apply (up_to_date_client_not_transformed_aux d (ApplyOperation <$> (ops ++ [o])%list)).
  rewrite exec_apply_all, apply_all_snoc.
  cbn [apply_operation snd client_versions doc_version].
  rewrite Forall_app, Forall_singleton in Hops. destruct Hops as [_ Ho].
  rewrite Hop, <- Ho. apply lookup_insert_eq.
Qed.

(** A history written by a single client: no operation is shifted, so the
    text is the operations edited in one after the other at the positions
    sent (clamped at 0), and the log holds them in order, stamped 1, 2,
    ... *)
Theorem single_author_history (d c : string) (ops : list Operation) :
  Forall (fun op => client_id op = c) ops →
  text (apply_all ops (init d)) = fold_left edit (clamped <$> ops) ""
  ∧ operations (apply_all ops (init d))
    = imap (fun i op => stamp (Z.of_nat i + 1) (clamped op)) ops.
Proof.
  induction ops as [|op ops IH] using rev_ind; intros Hops; [done|].
  rewrite Forall_app, Forall_singleton in Hops. destruct Hops as [Hops Hop].
  destruct (IH Hops) as [IHtext IHlog].
  rewrite apply_all_snoc. cbn [apply_operation snd text operations].
  rewrite (single_author_transform d c ops op Hops Hop).
  split.
  - by rewrite fmap_app, fold_left_app, IHtext.
  - rewrite imap_app, IHlog. f_equal. cbn [imap]. f_equal. f_equal.
    rewrite apply_all_version_log, IHlog, length_imap. lia.
Qed.

(** client1 types "Hello", then " World" at 5, then removes "Hello ". *)
Lemma single_author_history_witness :
  let ops := [insert_op "client1" "Hello" 0; insert_op "client1" " World" 5;
              delete_op "client1" "......" 0] in
  text (apply_all ops (init "doc")) = fold_left edit (clamped <$> ops) ""
  ∧ text (apply_all ops (init "doc")) = "World".
Proof.
  cbv zeta. split; [|reflexivity].
  apply (single_author_history "doc" "client1"
           [insert_op "client1" "Hello" 0; insert_op "client1" " World" 5;
            delete_op "client1" "......" 0]).
  repeat constructor.
Defined.

Lemma apply_all_log_prefix ops self :
  ∃ new, operations (apply_all ops self) = (operations self ++ new)%list
         ∧ length new = length ops.
Proof.
  revert self. induction ops as [|op ops IH]; intros self.
  - exists []. by rewrite app_nil_r.
  - destruct (IH (snd (apply_operation self op))) as (new & Hnew & Hlen).
    cbn [apply_operation snd operations] in Hnew.
    rewrite <- app_assoc in Hnew. eexists. split; [exact Hnew|].
    cbn [app length]. by rewrite Hlen.
Qed.

(** Operations applied after a text was edited in from the [k]-th log entry
    on keep it so. *)
Lemma apply_all_replay_from ops self base k :
  (k ≤ length (operations self))%nat →
  text self = fold_left edit (drop k (operations self)) base →
  text (apply_all ops self)
  = fold_left edit (drop k (operations (apply_all ops self))) base.
Proof.
  revert self. induction ops as [|op ops IH]; intros self Hk Hinv; [done|].
  change (apply_all (op :: ops) self)
    with (apply_all ops (snd (apply_operation self op))).
  apply IH; cbn [apply_operation snd text operations].
  - rewrite length_app. lia.
  - rewrite drop_app_le by done. by rewrite fold_left_app, <- Hinv.
Qed.

(** [set_content] followed by operations: the old log entries stay in
    front of the log but no longer count for the text, which is the
    content set, edited by the operations logged since; each call, the
    [set_content] too, has bumped the version. *)
Theorem set_content_then_operations (self : CRDT) (content_ : string)
    (ops : list Operation) :
  let self' := apply_all ops (set_content self content_) in
  let old := length (operations self) in
  take old (operations self') = operations self
  ∧ length (operations self') = (old + length ops)%nat
  ∧ text self' = fold_left edit (drop old (operations self')) content_
  ∧ doc_version self' = doc_version self + 1 + Z.of_nat (length ops).
Proof.
  cbv zeta.
  destruct (apply_all_log_prefix ops (set_content self content_))
    as (new & Hnew & Hlen).
  cbn [set_content operations] in Hnew.
  split; [by rewrite Hnew, take_app_length|].
  split; [by rewrite Hnew, length_app, Hlen|]. split.
  - apply apply_all_replay_from; cbn [set_content operations text]; [done|].
    by rewrite drop_all.
  - destruct (apply_all_length_version ops (set_content self content_))
      as [_ ->]. reflexivity.
Qed.

End ReplicaHistories.

(** ** Edits at the edges of the text *)

Section ReplicaEdges.

Import PyStr Crdt Design Scenarios.

Lemma take_all_str s : take (String.length s) s = s.
Proof. induction s as [|c s IH]; [done|]. cbn [String.length take]. by rewrite IH. Qed.

Lemma drop_all_str s : drop (String.length s) s = "".
Proof. induction s as [|c s IH]; [done|]. exact IH. Qed.

Lemma app_empty_r_str (s : string) : s +:+ "" = s.
Proof. induction s as [|c s IH]; [done|]. by rewrite app_cons_str, IH. Qed.

Lemma len_zero_str s : len s = 0 → s = "".
Proof. destruct s; [done|]. unfold len. cbn [String.length]. lia. Qed.

Lemma slice_at_len s :
  slice_to s (len s) = s ∧ slice_from s (len s) = "".
Proof.
  unfold slice_to, slice_from.
  rewrite bound_in_range by (pose proof (len_nonneg s); lia).
  unfold len. rewrite Nat2Z.id. split; [apply take_all_str | apply drop_all_str].
Qed.

(** Operations that land at or past the end of the text, and operations
    with an empty payload: an insert whose transformed position is at or
    beyond the end appends its payload; a delete there removes nothing; an
    operation with an empty payload leaves the text as it is.  All of them
    are logged and bump the version. *)
Theorem apply_operation_at_the_edges (self : CRDT) (op : Operation) :
  let text' := text (snd (apply_operation self op)) in
  (len (text self) ≤ position (_transform_operation self op) →
   (op_type op = "insert" → text' = text self +:+ content op)
   ∧ (op_type op = "delete" → text' = text self))
  ∧ (content op = "" → text' = text self)
  ∧ doc_version (snd (apply_operation self op)) = doc_version self + 1.
Proof.
  cbv zeta. rewrite apply_operation_text.
  pose proof (transform_position_nonneg self op) as Hp.
  pose proof (len_nonneg (text self)) as Hn.
  destruct (slice_at_len (text self)) as [Hto Hfrom].
  split; [|split; [|reflexivity]].
  - intros Hend. unfold edit. cbn [_transform_operation op_type content].
    rewrite Z.min_r by done. split; intros ->.
    + change (String.eqb "insert" "insert") with true. cbv iota.
      by rewrite Hto, Hfrom, app_empty_r_str.
    + change (String.eqb "delete" "insert") with false.
      change (String.eqb "delete" "delete") with true. cbv iota.
      pose proof (len_nonneg (content op)).
      rewrite Z.min_r by lia. by rewrite Hto, Hfrom, app_empty_r_str.
  - intros Hempty.
    destruct (decide (op_type op = "insert")) as [Hi|Hi].
    { apply edit_insert_empty; done. }
    destruct (decide (op_type op = "delete")) as [Hd|Hd].
    { destruct (edit_delete (text self) (_transform_operation self op) Hd Hp)
        as (pre & mid & post & Hs & _ & Hm & ->).
      cbn [_transform_operation content] in Hm. rewrite Hempty in Hm.
      change (len "") with 0 in Hm.
      rewrite (len_zero_str mid) in Hs by lia. by rewrite Hs. }
    by apply edit_unknown_kind.
Qed.

(** An insert at 100 into "Hello" appends; a delete at 100 removes
    nothing. *)
Lemma apply_operation_at_the_edges_witness :
  text (snd (apply_operation hello_v1 (insert_op "client1" "!" 100)))
  = "Hello" +:+ "!"
  ∧ text (snd (apply_operation hello_v1 (delete_op "client1" "..." 100)))
    = "Hello".
Proof.
  split.
  - refine (proj1 (proj1 (apply_operation_at_the_edges hello_v1
                            (insert_op "client1" "!" 100)) _) _);
      [by vm_compute | reflexivity].
  - refine (proj2 (proj1 (apply_operation_at_the_edges hello_v1
                            (delete_op "client1" "..." 100)) _) _);
      [by vm_compute | reflexivity].
Defined.

End ReplicaEdges.

(** ** Users and rooms *)

Section RoomsAndUsers.

Import Rooms.

(** Membership in a [List.filter]ed list, in stdpp's [∈]. *)
Lemma elem_of_List_filter {A} (f : A → bool) (l : list A) x :
  x ∈ List.filter f l ↔ x ∈ l ∧ f x = true.
Proof. rewrite !list_elem_of_In. apply List.filter_In. Qed.

Lemma length_List_filter {A} (f : A → bool) (l : list A) :
  (length (List.filter f l) ≤ length l)%nat.
Proof.
  induction l as [|x l IH]; [done|]. cbn [List.filter].
  destruct (f x); cbn [length]; lia.
Qed.

(** Users of a room: [add_user] stores the user under its identifier,
    replacing a user already there, and touches no other identifier;
    [remove_user] returns the stored user and forgets it, and on an unknown
    identifier returns [None] and changes nothing; removing a user just
    added to a room that did not have it gives the room back. *)
Theorem room_users_add_get_remove (room : Room) (user : User) (uid : string) :
  get_user (add_user room user) (user_id user) = Some user
  ∧ (uid ≠ user_id user → get_user (add_user room user) uid = get_user room uid)
  ∧ (remove_user (add_user room user) (user_id user)).1 = Some user
  ∧ (get_user room (user_id user) = None →
     (remove_user (add_user room user) (user_id user)).2 = room)
  ∧ (remove_user room uid).1 = get_user room uid
  ∧ get_user (remove_user room uid).2 uid = None
  ∧ (get_user room uid = None → remove_user room uid = (None, room)).
Proof.
  unfold get_user, add_user, remove_user. cbn [users fst snd].
  split; [apply lookup_insert_eq|].
  split; [intros Hne; by apply lookup_insert_ne|].
  split; [apply lookup_insert_eq|].
  split; [intros Hnew; rewrite delete_insert_id by done; by destruct room|].
  split; [done|]. split; [apply lookup_delete_eq|].
  intros Hnone. rewrite Hnone, delete_id by done. by destruct room.
Qed.

(** A user added to an empty room and removed again. *)
Lemma room_users_add_get_remove_witness :
  (remove_user (add_user (new_room 0 "room1" "python") LiveRoom.alice) "u1").2
  = new_room 0 "room1" "python".
Proof.
  apply (room_users_add_get_remove (new_room 0 "room1" "python")
           LiveRoom.alice "u1").
  reflexivity.
Defined.

(** [update_user_cursor] on an unknown user returns [False] and changes
    nothing.  On a known user it returns [True], sets cursor, selection
    and [last_active] and keeps identifier, name and colour; the other
    users are untouched, and the user counts as active for the next 300
    seconds. *)
Theorem update_user_cursor_effect (now : Z) (room : Room) (uid : string)
    (position : Z) (sel_start sel_end : option Z) :
  let result := update_user_cursor now room uid position sel_start sel_end in
  (get_user room uid = None → result = (false, room))
  ∧ (∀ user, get_user room uid = Some user →
       let user' := mkUser (user_id user) (username user) (color user)
                           position sel_start sel_end now in
       result.1 = true
       ∧ get_user result.2 uid = Some user'
       ∧ (∀ other, other ≠ uid → get_user result.2 other = get_user room other)
       ∧ (∀ later, later - now < 300 → user' ∈ get_active_users later result.2)).
Proof.
  cbv zeta. unfold update_user_cursor, get_user. split.
  - by intros ->.
  - intros user ->. cbn [fst snd users]. split; [done|].
    split; [apply lookup_insert_eq|].
    split; [intros other Hne; by apply lookup_insert_ne|].
    intros later Hlater. unfold get_active_users. cbn [users].
    apply elem_of_List_filter. split.
    + apply list_elem_of_fmap. eexists (uid, _). split; [reflexivity|].
      apply elem_of_map_to_list, lookup_insert_eq.
    + cbn [last_active]. by apply Z.ltb_lt.
Qed.

(** Alice moves her cursor at time 90500 and is active at 90700. *)
Lemma update_user_cursor_effect_witness :
  mkUser "u1" "Alice" "#FF6B6B" 7 None None 90500
  ∈ get_active_users 90700
      (update_user_cursor 90500 LiveRoom.room1 "u1" 7 None None).2.
Proof.
  refine (proj2 (proj2 (proj2 (proj2
    (update_user_cursor_effect 90500 LiveRoom.room1 "u1" 7 None None)
    LiveRoom.alice _))) 90700 _); [reflexivity | by vm_compute].
Defined.

(** The active users of a room are users of the room that were active less
    than 300 seconds ago, and [get_all_rooms] lists one entry per room, in
    which the active users are never more than the users. *)
Theorem get_all_rooms_counts (now : Z) (self : RoomManager) :
  length (get_all_rooms now self) = size (rooms self)
  ∧ Forall (fun info => (i_activeUserCount info ≤ i_userCount info)%nat)
           (get_all_rooms now self)
  ∧ (∀ rid room, rooms self !! rid = Some room →
       ∃ info, info ∈ get_all_rooms now self
               ∧ i_roomId info = room_id room
               ∧ i_userCount info = size (users room)
               ∧ i_activeUserCount info = length (get_active_users now room))
  ∧ (∀ room user, user ∈ get_active_users now room ↔
       (∃ uid, users room !! uid = Some user) ∧ now - last_active user < 300).
Proof.
  unfold get_all_rooms. split; [|split; [|split]].
  - by rewrite !length_fmap, length_map_to_list.
  - apply Forall_fmap, Forall_forall. intros room _. cbn.
    unfold get_active_users.
    etrans; [apply length_List_filter|].
    by rewrite length_fmap, length_map_to_list.
  - intros rid room Hroom.
    exists (mkRoomInfo (room_id room) (size (users room))
              (length (get_active_users now room)) (created_at room)
              (language room)).
    split; [|by repeat split].
    apply list_elem_of_fmap. exists room. split; [reflexivity|].
    apply list_elem_of_fmap. exists (rid, room). split; [done|].
    by apply elem_of_map_to_list.
  - intros room user. unfold get_active_users.
    rewrite elem_of_List_filter, Z.ltb_lt, list_elem_of_fmap.
    split; intros [Hin Hact]; (split; [|done]).
    + destruct Hin as ([uid u] & -> & Hin). exists uid.
      by apply elem_of_map_to_list.
    + destruct Hin as [uid Hin]. exists (uid, user). split; [done|].
      by apply elem_of_map_to_list.
Qed.

Lemma lookup_fold_delete {A} (ks : list string) (m : gmap string A) k :
  fold_left (fun m rid => delete rid m) ks m !! k
  = if decide (k ∈ ks) then None else m !! k.
Proof.
  revert m. induction ks as [|a ks IH]; intros m; cbn [fold_left].
  - rewrite decide_False; [done | apply not_elem_of_nil].
  - rewrite IH. destruct (decide (k ∈ ks)) as [Hin|Hin].
    + rewrite decide_True; [done | by right].
    + destruct (decide (k = a)) as [->|Hne].
      * rewrite decide_True by left. apply lookup_delete_eq.
      * rewrite decide_False by (rewrite elem_of_cons; tauto).
        by apply lookup_delete_ne.
Qed.

Lemma size_fold_delete {A} (ks : list string) (m : gmap string A) :
  NoDup ks → (∀ k, k ∈ ks → is_Some (m !! k)) →
  (size (fold_left (fun m rid => delete rid m) ks m) + length ks)%nat = size m.
Proof.
  intros Hnd. revert m. induction Hnd as [|a ks Ha Hnd IH]; intros m Hin.
  - cbn. lia.
  - cbn [fold_left length]. rewrite Nat.add_succ_r, IH.
    + rewrite map_size_delete_Some by (apply Hin; left).
      destruct (Hin a) as [x Hx]; [left|].
      assert (size m ≠ 0%nat); [|lia].
      intros ->%map_size_empty_inv. by rewrite lookup_empty in Hx.
    + intros k Hk. rewrite lookup_delete_ne; [apply Hin; by right|].
      by intros ->.
Qed.

Lemma NoDup_fst_List_filter {A B} (f : A * B → bool) (l : list (A * B)) :
  NoDup l.*1 → NoDup (List.filter f l).*1.
Proof.
  induction l as [|x l IH]; [done|]. rewrite fmap_cons.
  intros [Hx Hl]%NoDup_cons. cbn [List.filter].
  destruct (f x); [|by apply IH]. rewrite fmap_cons. apply NoDup_cons.
  split; [|by apply IH]. intros Hin. apply Hx.
  apply list_elem_of_fmap in Hin as (y & -> & Hy).
  apply elem_of_List_filter in Hy as [Hy _].
  apply list_elem_of_fmap. by exists y.
Qed.

(** [cleanup_inactive_rooms] removes exactly the rooms that are older than
    the limit and have no active user: every other room is kept as it is.
    The number returned is the number of rooms removed, and a second run at
    the same time removes nothing. *)
Theorem cleanup_inactive_rooms_removes_stale (now max_age_hours : Z)
    (self : RoomManager) :
  let result := cleanup_inactive_rooms now max_age_hours self in
  (∀ rid room,
     rooms result.2 !! rid = Some room
     ↔ rooms self !! rid = Some room
       ∧ ¬ (max_age_hours * 3600 < now - created_at room
            ∧ get_active_users now room = []))
  ∧ result.1 = (size (rooms self) - size (rooms result.2))%nat
  ∧ cleanup_inactive_rooms now max_age_hours result.2 = (0%nat, result.2).
Proof.
  cbv zeta. unfold cleanup_inactive_rooms at 1 2 3. cbn [fst snd rooms].
  set (stale := fun '(_, room) =>
         (max_age_hours * 3600 <? now - created_at room)
         && Nat.eqb (length (get_active_users now room)) 0).
  set (ks := (List.filter stale (map_to_list (rooms self))).*1).
  assert (Hstale : ∀ rid room, stale (rid, room) = true
            ↔ max_age_hours * 3600 < now - created_at room
              ∧ get_active_users now room = []).
  { intros rid room. unfold stale.
    rewrite andb_true_iff, Z.ltb_lt, Nat.eqb_eq.
    split; intros [? ?]; (split; [done|]).
    - by apply nil_length_inv.
    - by apply length_zero_iff_nil. }
  assert (Hks : ∀ rid, rid ∈ ks
            ↔ ∃ room, rooms self !! rid = Some room ∧ stale (rid, room) = true).
  { intros rid. unfold ks. rewrite list_elem_of_fmap. split.
    - intros ([rid' room] & -> & [Hin Hst]%elem_of_List_filter).
      exists room. split; [by apply elem_of_map_to_list | done].
    - intros (room & Hin & Hst). exists (rid, room). split; [done|].
      apply elem_of_List_filter. split; [by apply elem_of_map_to_list | done]. }
  assert (Hkept : ∀ rid room,
     fold_left (fun m rid => delete rid m) ks (rooms self) !! rid = Some room
     ↔ rooms self !! rid = Some room
       ∧ ¬ (max_age_hours * 3600 < now - created_at room
            ∧ get_active_users now room = [])).
  { intros rid room. rewrite lookup_fold_delete, <- Hstale.
    destruct (decide (rid ∈ ks)) as [Hin|Hin].
    - apply Hks in Hin as (room' & Hroom' & Hst). split; [done|].
      intros [Hroom Hnot]. assert (room' = room) as -> by congruence.
      by destruct Hnot.
    - split; [|tauto]. intros Hroom. split; [done|]. intros Hst.
      apply Hin, Hks. by exists room. }
  split; [exact Hkept|]. split.
  - rewrite <- (size_fold_delete ks (rooms self)).
    + lia.
    + apply NoDup_fst_List_filter, NoDup_fst_map_to_list.
    + intros rid (room & Hroom & _)%Hks. by exists room.
  - unfold cleanup_inactive_rooms. cbn [rooms]. fold stale.
    rewrite filter_all_false; [done|].
    apply Forall_forall. intros [rid room] Hin%elem_of_map_to_list.
    apply Hkept in Hin as [_ Hnot]. apply not_true_is_false.
    by rewrite Hstale.
Qed.

(** A room not yet known is known after [create_room], with no user, an
    empty document at version 0 and the other rooms untouched, and
    [delete_room] then gives the manager back.  [delete_room] on an unknown
    room returns [False] and changes nothing; after it the room is unknown
    in every case and the other rooms are untouched.  The DELETE handler
    answers 404 exactly when the room was unknown. *)
Theorem create_room_delete_room (now : Z) (rid language_ : string)
    (self : RoomManager) :
  (rooms self !! rid = None →
   let created := create_room now rid language_ self in
   get_room created.2 rid = Some created.1
   ∧ room_exists created.2 rid = true
   ∧ users created.1 = ∅
   ∧ Crdt.get_state (crdt created.1) = Crdt.mkDocumentState rid "" 0
   ∧ (∀ other, other ≠ rid → get_room created.2 other = get_room self other)
   ∧ delete_room created.2 rid = (true, self))
  ∧ (rooms self !! rid = None → delete_room self rid = (false, self))
  ∧ room_exists (delete_room self rid).2 rid = false
  ∧ (∀ other, other ≠ rid →
       get_room (delete_room self rid).2 other = get_room self other)
  ∧ (Main.delete_room self rid).1
    = (if room_exists self rid then Main.Deleted rid
       else Main.HTTPException 404 "Room not found")
  ∧ (Main.delete_room self rid).2 = (delete_room self rid).2.
Proof.
  unfold create_room, delete_room, get_room, room_exists, Main.delete_room.
  cbv zeta. cbn [fst snd rooms].
  split; [|split; [|split; [|split; [|split]]]].
  - intros Hnew. rewrite lookup_insert_eq.
    split; [done|]. split; [by apply bool_decide_eq_true|].
    split; [done|]. split; [done|].
    split; [intros other Hne; by apply lookup_insert_ne|].
    rewrite delete_insert_id by done. by destruct self.
  - by intros ->.
  - destruct (rooms self !! rid) eqn:E; cbn [snd rooms];
      apply bool_decide_eq_false; rewrite ?lookup_delete_eq, ?E;
      by intros [? ?].
  - intros other Hne. destruct (rooms self !! rid); cbn [snd rooms]; [|done].
    by apply lookup_delete_ne.
  - unfold Rooms.delete_room. by destruct (rooms self !! rid) eqn:E; cbn.
  - unfold Rooms.delete_room. by destruct (rooms self !! rid).
Qed.

(** Room "room2" created beside room "room1" and deleted again. *)
Lemma create_room_delete_room_witness :
  delete_room (create_room 5 "room2" "python" LiveRoom.manager).2 "room2"
  = (true, LiveRoom.manager).
Proof.
  apply (create_room_delete_room 5 "room2" "python" LiveRoom.manager).
  reflexivity.
Defined.

End RoomsAndUsers.

(** ** Registrations in the connection hub *)

Section HubRegistrations.

Import Hub Design HubScenarios.

(** [disconnect] pops the connection from both lookup maps, whatever it
    finds there. *)
Lemma disconnect_lookup_maps self websocket :
  connection_rooms (disconnect self websocket).2
  = delete websocket (connection_rooms self)
  ∧ connection_users (disconnect self websocket).2
    = delete websocket (connection_users self).
Proof.
  unfold disconnect.
  destruct (connection_rooms self !! websocket) as [r|];
    destruct (connection_users self !! websocket) as [u|];
    try destruct (truthy r && truthy u); by split.
Qed.

(** The room sets after [disconnect], by what [connection_rooms] held. *)
Lemma disconnect_active self websocket :
  active_connections (disconnect self websocket).2
  = match connection_rooms self !! websocket with
    | Some r =>
        if truthy r then
          match active_connections self !! r with
          | Some conns =>
              if bool_decide (conns ∖ {[websocket]} = ∅)
              then delete r (active_connections self)
              else <[r := conns ∖ {[websocket]}]> (active_connections self)
          | None => active_connections self
          end
        else active_connections self
    | None => active_connections self
    end.
Proof.
  unfold disconnect.
  destruct (connection_rooms self !! websocket) as [r|];
    destruct (connection_users self !! websocket) as [u|];
    try destruct (truthy r && truthy u); reflexivity.
Qed.

Lemma disconnect_nonempty_sets self websocket :
  (∀ room_id conns, active_connections self !! room_id = Some conns →
                    conns ≠ ∅) →
  ∀ room_id conns,
    active_connections (disconnect self websocket).2 !! room_id = Some conns →
    conns ≠ ∅.
Proof.
  intros Hne room_id conns. rewrite disconnect_active.
  destruct (connection_rooms self !! websocket) as [r|]; [|apply Hne].
  destruct (truthy r); [|apply Hne].
  destruct (active_connections self !! r) as [cs|] eqn:Hcs; [|apply Hne].
  destruct (bool_decide_reflect (cs ∖ {[websocket]} = ∅)) as [He|He].
  - destruct (decide (room_id = r)) as [->|Hroom].
    + by rewrite lookup_delete_eq.
    + rewrite lookup_delete_ne by done. apply Hne.
  - destruct (decide (room_id = r)) as [->|Hroom].
    + rewrite lookup_insert_eq. by intros [= <-].
    + rewrite lookup_insert_ne by done. apply Hne.
Qed.

Lemma well_formed_empty : well_formed empty.
Proof.
  split.
  - intros room_id c. unfold room_connections. cbn.
    rewrite lookup_empty. cbn. by intros ?%not_elem_of_empty.
  - intros room_id conns. cbn. by rewrite lookup_empty.
Qed.

Lemma connect_well_formed self websocket room_id user_id :
  well_formed self → connection_rooms self !! websocket = None →
  well_formed (connect self websocket room_id user_id).
Proof.
  intros [Hcons Hne] Hnew.
  split; [by apply connect_consistent|].
  intros r conns. unfold connect. cbn [active_connections].
  destruct (decide (r = room_id)) as [->|Hr].
  - rewrite lookup_insert_eq. intros [= <-] Hempty.
    apply (not_elem_of_empty (C:=gset conn) websocket).
    rewrite <- Hempty. apply elem_of_union_r, elem_of_singleton. reflexivity.
  - rewrite lookup_insert_ne by done. apply Hne.
Qed.

Lemma disconnect_well_formed self websocket :
  well_formed self → connection_rooms self !! websocket ≠ Some "" →
  well_formed (disconnect self websocket).2.
Proof.
  intros [Hcons Hne] Hroom.
  split; [|by apply disconnect_nonempty_sets].
  destruct (connection_rooms self !! websocket) as [r|] eqn:Hr.
  - apply (disconnect_consistent self websocket r); [done..|].
    intros ->. by apply Hroom.
  - intros room_id c. unfold room_connections.
    destruct (disconnect_lookup_maps self websocket) as [-> _].
    rewrite disconnect_active, Hr. intros Hin.
    pose proof (Hcons room_id c Hin) as Hc.
    rewrite lookup_delete_ne; [done|]. intros ->. congruence.
Qed.

Lemma two_peers_well_formed : well_formed two_peers.
Proof.
  apply connect_well_formed; [|reflexivity].
  apply connect_well_formed; [apply well_formed_empty | reflexivity].
Qed.

(** The registrations stay well formed: the empty manager is, [connect] of
    a connection not yet registered keeps it so, and so does [disconnect]
    of any connection that is not registered under the empty room
    identifier. *)
Theorem hub_stays_well_formed :
  well_formed empty
  ∧ (∀ self websocket room_id user_id,
       well_formed self → connection_rooms self !! websocket = None →
       well_formed (connect self websocket room_id user_id))
  ∧ (∀ self websocket,
       well_formed self → connection_rooms self !! websocket ≠ Some "" →
       well_formed (disconnect self websocket).2).
Proof.
  split; [apply well_formed_empty|]. split.
  - intros. by apply connect_well_formed.
  - intros. by apply disconnect_well_formed.
Qed.

(** The two-peer manager is well formed, and stays so when connection 1
    leaves. *)
Lemma hub_stays_well_formed_witness :
  well_formed two_peers ∧ well_formed (disconnect two_peers 1%nat).2.
Proof.
  destruct hub_stays_well_formed as (Hempty & Hconnect & Hdisconnect).
  assert (H1 : well_formed (connect empty 1%nat "room1" "alice"))
    by (apply Hconnect; [exact Hempty | reflexivity]).
  assert (H2 : well_formed two_peers)
    by (apply Hconnect; [exact H1 | reflexivity]).
  split; [exact H2|]. apply Hdisconnect; [exact H2 | discriminate].
Defined.

(** [connect] and then [disconnect] of the same connection: on a well
    formed manager that does not know the connection, with non-empty
    identifiers, [disconnect] returns the pair given to [connect] and the
    manager is as it was before. *)
Theorem connect_then_disconnect (self : ConnectionManager) (websocket : conn)
    (room_id user_id : string) :
  well_formed self →
  connection_rooms self !! websocket = None →
  connection_users self !! websocket = None →
  room_id ≠ "" → user_id ≠ "" →
  disconnect (connect self websocket room_id user_id) websocket
  = (Some (room_id, user_id), self).
Proof.
  intros [Hcons Hne] Hr Hu Hroom Huser.
  assert (Hout : websocket ∉ room_connections self room_id).
  { intros Hin. apply Hcons in Hin. congruence. }
  unfold disconnect, connect. cbv zeta.
  cbn [connection_rooms connection_users active_connections].
  rewrite !lookup_insert_eq, (truthy_nonempty _ Hroom), (truthy_nonempty _ Huser).
  cbn [andb]. f_equal.
  rewrite (delete_insert_id (connection_users self)),
          (delete_insert_id (connection_rooms self)) by done.
  unfold room_connections in Hout.
  assert (Hback : (default ∅ (active_connections self !! room_id)
                   ∪ {[websocket]}) ∖ {[websocket]}
                  = default ∅ (active_connections self !! room_id)).
  { apply set_eq. intros c.
    rewrite elem_of_difference, elem_of_union, elem_of_singleton.
    split; [tauto|]. intros Hc. split; [by left|]. by intros ->. }
  rewrite Hback.
  destruct (active_connections self !! room_id) as [conns|] eqn:Hconns;
    cbn [default from_option id].
  - rewrite bool_decide_eq_false_2 by (by apply (Hne room_id)).
    rewrite insert_insert_eq, insert_id by done. by destruct self.
  - rewrite bool_decide_eq_true_2 by done.
    rewrite delete_insert_id by done. by destruct self.
Qed.

(** Connection 3 joins room "room1" of the two-peer manager and leaves. *)
Lemma connect_then_disconnect_witness :
  disconnect (connect two_peers 3%nat "room1" "carol") 3%nat
  = (Some ("room1", "carol"), two_peers).
Proof.
  apply (connect_then_disconnect two_peers 3%nat "room1" "carol");
    [apply two_peers_well_formed|reflexivity|reflexivity
    |discriminate|discriminate].
Defined.

(** [get_room_connection_count]: 0 for a room that is not registered;
    [connect] of a connection that is not in the room's set adds one to the
    room's count and leaves the other rooms' counts; [disconnect] of a
    connection that is in the set of its room (a non-empty identifier)
    takes one off. *)
Theorem connection_count_changes :
  (∀ self room_id,
     active_connections self !! room_id = None →
     get_room_connection_count self room_id = 0%nat)
  ∧ (∀ self websocket room_id user_id,
       websocket ∉ room_connections self room_id →
       get_room_connection_count (connect self websocket room_id user_id) room_id
       = S (get_room_connection_count self room_id))
  ∧ (∀ self websocket room_id user_id other,
       other ≠ room_id →
       get_room_connection_count (connect self websocket room_id user_id) other
       = get_room_connection_count self other)
  ∧ (∀ self websocket room_id,
       connection_rooms self !! websocket = Some room_id → room_id ≠ "" →
       websocket ∈ room_connections self room_id →
       S (get_room_connection_count (disconnect self websocket).2 room_id)
       = get_room_connection_count self room_id).
Proof.
  unfold get_room_connection_count. split; [|split; [|split]].
  - by intros self room_id ->.
  - intros self websocket room_id user_id Hout. unfold connect.
    cbn [active_connections]. rewrite lookup_insert_eq.
    cbn [default from_option id]. unfold room_connections in Hout.
    rewrite size_union, size_singleton; [lia|].
    intros c Hc ->%elem_of_singleton. done.
  - intros self websocket room_id user_id other Hne. unfold connect.
    cbn [active_connections]. by rewrite lookup_insert_ne.
  - intros self websocket room_id Hr Hne Hin.
    pose proof (disconnect_room_connections self websocket room_id room_id
                  Hr Hne) as Hset.
    rewrite decide_True in Hset by done. unfold room_connections in *.
    rewrite Hset, size_difference, size_singleton.
    + assert (size (default ∅ (active_connections self !! room_id)) ≠ 0%nat);
        [|lia].
      intros Hsize%size_empty_inv. rewrite (Hsize websocket) in Hin.
      by apply not_elem_of_empty in Hin.
    + by intros c ->%elem_of_singleton.
Qed.

(** The counts of room "room1" around connection 3 joining and connection
    1 leaving. *)
Lemma connection_count_changes_witness :
  get_room_connection_count (connect two_peers 3%nat "room1" "carol") "room1"
  = 3%nat
  ∧ S (get_room_connection_count (disconnect two_peers 1%nat).2 "room1")
    = 2%nat.
Proof.
  destruct connection_count_changes as (_ & Hconnect & _ & Hdisconnect).
  split.
  - apply (Hconnect two_peers 3%nat "room1" "carol"). by vm_compute.
  - apply (Hdisconnect two_peers 1%nat "room1");
      [reflexivity | discriminate | by vm_compute].
Defined.





End HubRegistrations.

(** ** Broadcasts and unreachable connections *)

Section HubBroadcast.

Import Hub Design HubScenarios.

Lemma elem_of_send_loop_failed send_fails (m : message) exclude l c :
  c ∈ (send_loop send_fails m exclude l).2
  ↔ c ∈ l ∧ Some c ≠ exclude ∧ send_fails c = true.
Proof.
  induction l as [|x l IH]; cbn [send_loop].
  - cbn [snd]. split; [by intros ?%elem_of_nil | by intros [?%elem_of_nil _]].
  - destruct (send_loop send_fails m exclude l) as [sent disconnected].
    cbn [snd] in IH. rewrite elem_of_cons.
    destruct (bool_decide_reflect (Some x = exclude)) as [Hx|Hx].
    + cbn [snd]. rewrite IH. split; [tauto|].
      intros ([->|Hc] & Hne & Hf); [done | tauto].
    + destruct (send_fails x) eqn:Hfx; cbn [snd].
      * rewrite elem_of_cons, IH. split.
        -- intros [->|(? & ? & ?)]; tauto.
        -- intros ([->|Hc] & Hne & Hf); [by left | tauto].
      * rewrite IH. split; [tauto|].
        intros ([->|Hc] & Hne & Hf); [congruence | tauto].
Qed.

Lemma NoDup_send_loop_failed send_fails (m : message) exclude l :
  NoDup l → NoDup (send_loop send_fails m exclude l).2.
Proof.
  induction 1 as [|x l Hx Hl IH]; cbn [send_loop]; [constructor|].
  pose proof (elem_of_send_loop_failed send_fails m exclude l x) as Hin.
  destruct (send_loop send_fails m exclude l) as [sent disconnected].
  cbn [snd] in *.
  destruct (bool_decide (Some x = exclude)); [done|].
  destruct (send_fails x); [|done]. constructor; [tauto | done].
Qed.

Lemma lookup_fold_delete_conn {A} (ks : list conn) (m : gmap conn A) k :
  fold_left (fun m c => delete c m) ks m !! k
  = if decide (k ∈ ks) then None else m !! k.
Proof.
  revert m. induction ks as [|a ks IH]; intros m; cbn [fold_left].
  - rewrite decide_False; [done | apply not_elem_of_nil].
  - rewrite IH. destruct (decide (k ∈ ks)) as [Hin|Hin].
    + rewrite decide_True; [done | by right].
    + destruct (decide (k = a)) as [->|Hne].
      * rewrite decide_True by left. apply lookup_delete_eq.
      * rewrite decide_False by (rewrite elem_of_cons; tauto).
        by apply lookup_delete_ne.
Qed.

(** Disconnecting a list of connections pops each from the lookup maps. *)
Lemma fold_disconnect_lookup_maps ds self :
  connection_rooms (fold_left (fun h c => (disconnect h c).2) ds self)
  = fold_left (fun m c => delete c m) ds (connection_rooms self)
  ∧ connection_users (fold_left (fun h c => (disconnect h c).2) ds self)
    = fold_left (fun m c => delete c m) ds (connection_users self).
Proof.
  revert self. induction ds as [|d ds IH]; intros self; [done|].
  cbn [fold_left]. destruct (IH (disconnect self d).2) as [-> ->].
  by destruct (disconnect_lookup_maps self d) as [-> ->].
Qed.

(** Disconnecting distinct connections of one room takes them out of the
    room's set and leaves the other sets. *)
Lemma fold_disconnect_rooms room_id ds self :
  NoDup ds → consistent self → room_id ≠ "" →
  (∀ c, c ∈ ds → c ∈ room_connections self room_id) →
  let self' := fold_left (fun h c => (disconnect h c).2) ds self in
  consistent self'
  ∧ (∀ c, c ∈ room_connections self' room_id
          ↔ c ∈ room_connections self room_id ∧ c ∉ ds)
  ∧ (∀ other, other ≠ room_id →
       room_connections self' other = room_connections self other).
Proof.
  intros Hnd. revert self.
  induction Hnd as [|d ds Hd Hnd IH]; intros self Hcons Hroom Hin; cbn zeta.
  - cbn [fold_left]. split; [done|]. split; [|done].
    intros c. split; [|tauto]. intros Hc. split; [done | apply not_elem_of_nil].
  - cbn [fold_left].
    assert (Hr : connection_rooms self !! d = Some room_id)
      by (apply Hcons, Hin; left).
    pose proof (disconnect_room_connections self d room_id) as Hsets.
    destruct (IH (disconnect self d).2) as (Hcons' & Hset' & Hother').
    + by apply (disconnect_consistent self d room_id).
    + done.
    + intros c Hc. rewrite (Hsets room_id Hr Hroom), decide_True by done.
      apply elem_of_difference. split; [apply Hin; by right|].
      intros ->%elem_of_singleton. done.
    + split; [exact Hcons'|]. split.
      * intros c. rewrite Hset', (Hsets room_id Hr Hroom), decide_True by done.
        rewrite elem_of_difference, elem_of_singleton, elem_of_cons. tauto.
      * intros other Hne. rewrite (Hother' other Hne).
        rewrite (Hsets other Hr Hroom). by rewrite decide_False.
Qed.

(** After [broadcast_to_room] the connections whose [send_json] raised are
    gone from the lookup maps, and every other connection is registered as
    before.  On a consistent manager and a room with a non-empty
    identifier they are gone from the room's set too, the reachable
    connections stay in it, the other rooms are untouched and the manager
    is consistent again.  When no send in the room raises the manager is
    unchanged. *)
Theorem broadcast_to_room_drops_failed (send_fails : conn → bool)
    (now : string) (self : ConnectionManager) (message_ : message)
    (room_id : string) (exclude : option conn) :
  let self' :=
    (broadcast_to_room send_fails now self message_ room_id exclude).2 in
  let failed c :=
    c ∈ room_connections self room_id ∧ Some c ≠ exclude
    ∧ send_fails c = true in
  (∀ c, failed c →
        get_room_id self' c = None ∧ get_user_id self' c = None)
  ∧ (∀ c, ¬ failed c →
          get_room_id self' c = get_room_id self c
          ∧ get_user_id self' c = get_user_id self c)
  ∧ (consistent self → room_id ≠ "" →
     consistent self'
     ∧ (∀ c, c ∈ room_connections self' room_id
             ↔ c ∈ room_connections self room_id ∧ ¬ failed c)
     ∧ (∀ other, other ≠ room_id →
          room_connections self' other = room_connections self other))
  ∧ ((∀ c, c ∈ room_connections self room_id → send_fails c = false) →
     self' = self).
Proof.
  cbv zeta. unfold broadcast_to_room, room_connections at 1 2 4 7, get_room_id, get_user_id.
  destruct (active_connections self !! room_id) as [conns|] eqn:Hconns;
    cbn [default from_option id snd].
  2:{ split; [by intros c [?%not_elem_of_empty _]|]. split; [done|].
      split; [|done]. intros Hcons Hroom. split; [done|]. split; [|done].
      intros c. unfold room_connections. rewrite Hconns.
      cbn [default from_option id]. split; [by intros ?%not_elem_of_empty|].
      by intros [?%not_elem_of_empty _]. }
  pose proof (elem_of_send_loop_failed send_fails
                (<["timestamp" := now]> message_) exclude (elements conns))
    as Hfailed.
  pose proof (NoDup_send_loop_failed send_fails
                (<["timestamp" := now]> message_) exclude (elements conns)
                (NoDup_elements conns)) as Hnd.
  destruct (send_loop send_fails (<["timestamp" := now]> message_) exclude
              (elements conns)) as [sent disconnected].
  cbn [snd] in *.
  assert (Hds : ∀ c, c ∈ disconnected
                ↔ c ∈ conns ∧ Some c ≠ exclude ∧ send_fails c = true).
  { intros c. by rewrite Hfailed, elem_of_elements. }
  destruct (fold_disconnect_lookup_maps disconnected self) as [Hrooms Husers].
  split; [|split; [|split]].
  - intros c Hc%Hds. rewrite Hrooms, Husers, !lookup_fold_delete_conn.
    by rewrite !decide_True.
  - intros c Hc. rewrite Hrooms, Husers, !lookup_fold_delete_conn.
    rewrite !decide_False; [done|by rewrite Hds..].
  - intros Hcons Hroom.
    destruct (fold_disconnect_rooms room_id disconnected self Hnd Hcons Hroom)
      as (Hcons' & Hset & Hother).
    { intros c (Hc & _)%Hds. unfold room_connections. by rewrite Hconns. }
    split; [exact Hcons'|]. split; [|exact Hother].
    intros c. rewrite Hset, Hds. unfold room_connections.
    rewrite Hconns. cbn [default from_option id]. tauto.
  - intros Hok. destruct disconnected as [|c ds]; [done|].
    exfalso. destruct (proj1 (Hds c)) as (Hc & _ & Hf); [by left|].
    rewrite Hok in Hf; [discriminate|].
    unfold room_connections. by rewrite Hconns.
Qed.

(** In the two-peer room the send to connection 2 raises: connection 2 is
    gone afterwards, connection 1 stays. *)
Lemma broadcast_to_room_drops_failed_witness :
  let self' := (broadcast_to_room (fun c => Nat.eqb c 2) "t" two_peers ∅
                  "room1" None).2 in
  get_room_id self' 2%nat = None
  ∧ room_connections self' "room1" = {[1%nat]}.
Proof.
  cbv zeta. split; [|by vm_compute].
  refine (proj1 (proj1 (broadcast_to_room_drops_failed (fun c => Nat.eqb c 2)
                          "t" two_peers ∅ "room1" None) 2%nat _)).
  by vm_compute.
Defined.

End HubBroadcast.

(** ** Operation messages *)

Section OperationMessages.

Import Crdt Design Scenarios.



End OperationMessages.
